(** * Ajali incident service: token lifecycle and incident ownership

    A shallow embedding of the Flask back end found in
    [backend/app_postresql.py] and [backend/app_postgresql.py].  The two
    files share the session guard ([token_required]), [register], [login],
    [logout], [update_incident] and [delete_incident] verbatim; they differ
    in [create_incident], which is therefore embedded twice, once per file.

    Modelling conventions.
    - The PostgreSQL database is a record of three tables, each a list of
      rows.  A handler computes the table contents it commits; every path
      that ends in an exception or returns before [conn.commit()] leaves the
      tables as they were (the connection is closed, the transaction is
      discarded).
    - The tables are those declared by [setup_database] of
      [app_postresql.py]: [users], [api_tokens] and [incidents] with the
      primary key [incident_id], which is the column the shared
      [update_incident] and [delete_incident] statements name
      ([setup_database] of [app_postgresql.py] re-creates [incidents] alone,
      with the key column called [id] and two more columns; its
      [create_incident] is modelled on the same rows, which carry those
      columns as options).  The declared PRIMARY KEY, UNIQUE and FOREIGN
      KEY constraints are checked on insertion, and so are the
      VARCHAR(255) limits of the columns written from a request, with the
      length of a string counted in its characters; failures of the file
      system are not modelled.
    - Timestamps are instants, counted in microseconds since the epoch, so
      that [astimezone(utc)] is the identity and [replace(microsecond=0)]
      rounds down to a whole second.
    - Randomness ([uuid.uuid4()], the salt of the password hash), the clock
      and the reachability of the database are inputs of a request,
      gathered in [env].
    - [werkzeug] and [datetime] library functions are an interface
      ([Library]). *)

From Stdlib Require Import ZArith List String Ascii Bool Lia.
From Stdlib Require Import Sorting.Permutation Sorting.Sorted.
Import ListNotations.

Local Open Scope string_scope.
Local Open Scope Z_scope.

(** ** Python helpers *)

(** [str.split(sep)] with an explicit one-character separator: every
    occurrence of the separator cuts, and the result is never empty. *)
Fixpoint split (sep : ascii) (s : string) : list string :=
  match s with
  | EmptyString => [EmptyString]
  | String c r =>
      if Ascii.eqb c sep then EmptyString :: split sep r
      else match split sep r with
           | h :: t => String c h :: t
           | [] => [String c EmptyString]
           end
  end.

(** Truth value of a string or [None]: [not x] holds for [None] and for the
    empty string. *)
Definition truthy (x : option string) : bool :=
  match x with
  | None => false
  | Some s => negb (String.eqb s EmptyString)
  end.

(** The value of an expression already known not to be [None]. *)
Definition str_of (x : option string) : string :=
  match x with
  | None => EmptyString
  | Some s => s
  end.

(** [dict.get(key)], also [request.form.get(key)]: the first value stored
    under the key, [None] without one. *)
Fixpoint dict_get (d : list (string * string)) (key : string) : option string :=
  match d with
  | [] => None
  | (k, v) :: rest => if String.eqb k key then Some v else dict_get rest key
  end.

(** [s.rsplit('.', 1)[1]] when ['.' in s]: the text after the last dot. *)
Fixpoint rsplit_dot (s : string) : option string :=
  match s with
  | EmptyString => None
  | String c r =>
      match rsplit_dot r with
      | Some e => Some e
      | None => if Ascii.eqb c "."%char then Some r else None
      end
  end.

(** [str.lower()] on the letters A to Z.  No other character lower-cases
    to a string of the allow-list below, so membership is not affected. *)
Definition lower_ascii (c : ascii) : ascii :=
  let n := nat_of_ascii c in
  if (Nat.leb 65 n && Nat.leb n 90)%bool then ascii_of_nat (n + 32) else c.

Fixpoint lower (s : string) : string :=
  match s with
  | EmptyString => EmptyString
  | String c r => String (lower_ascii c) (lower r)
  end.

(** [s.replace('Z', '+00:00')] *)
Fixpoint replace_Z (s : string) : string :=
  match s with
  | EmptyString => EmptyString
  | String c r =>
      if Ascii.eqb c "Z"%char then "+00:00" ++ replace_Z r
      else String c (replace_Z r)
  end.

Definition ALLOWED_EXTENSIONS : list string := ["png"; "jpg"; "jpeg"; "gif"].

Definition allowed_file (filename : string) : bool :=
  match rsplit_dot filename with
  | None => false
  | Some ext => existsb (String.eqb (lower ext)) ALLOWED_EXTENSIONS
  end.

(** ** Time *)

Definition microseconds_per_second : Z := 1000000.

(** [dt.replace(microsecond=0)] *)
Definition replace_microsecond_0 (t : Z) : Z :=
  t - t mod microseconds_per_second.

(** [timedelta(hours=h)] *)
Definition timedelta_hours (h : Z) : Z :=
  h * 3600 * microseconds_per_second.

(** ** JSON values *)

(** What [request.get_json()] holds under a key: any JSON value, not only a
    string.  A number is [digits * 10 ^ exponent]. *)
#[warnings="-register-all"] Inductive json_value :=
| JNull
| JBool (b : bool)
| JNumber (digits exponent : Z)
| JString (s : string)
| JArray (items : list json_value)
| JObject (members : list (string * json_value)).

(** [data.get(key)] on the JSON object of the body *)
Fixpoint json_get (d : list (string * json_value)) (key : string)
  : option json_value :=
  match d with
  | [] => None
  | (k, v) :: rest => if String.eqb k key then Some v else json_get rest key
  end.

(** Truth value of [data.get(key)]: [not x] holds for [None], [null],
    [false], zero, the empty string, the empty list and the empty object. *)
Definition json_truthy (x : option json_value) : bool :=
  match x with
  | None => false
  | Some JNull => false
  | Some (JBool b) => b
  | Some (JNumber digits _) => negb (digits =? 0)
  | Some (JString s) => negb (String.eqb s EmptyString)
  | Some (JArray items) => match items with [] => false | _ => true end
  | Some (JObject members) => match members with [] => false | _ => true end
  end.

(** The value of an expression already known not to be [None]. *)
Definition json_of (x : option json_value) : json_value :=
  match x with
  | None => JNull
  | Some v => v
  end.

(** ** Column types *)

(** A value fits a VARCHAR(255) column; a longer one makes the INSERT or
    UPDATE raise. *)
Definition VARCHAR_255 (s : string) : bool :=
  Nat.leb (String.length s) 255.

Definition VARCHAR_255_or_null (x : option string) : bool :=
  match x with
  | None => true
  | Some s => VARCHAR_255 s
  end.

Arguments VARCHAR_255 : simpl never.

(** ** Library interface *)

Class Library := {
  (** [generate_password_hash(password, method='scrypt')], with the salt it
      draws made explicit as the second argument; [None] stands for the
      exception it raises on a password that it cannot encode (a value
      that is not a string, a string with a lone surrogate) *)
  generate_password_hash : json_value -> string -> option string;
  (** [check_password_hash(pwhash, password)]; [None] stands for the
      exception it raises on a password that it cannot encode *)
  check_password_hash : string -> json_value -> option bool;
  (** [werkzeug.utils.secure_filename] *)
  secure_filename : string -> string;
  (** [datetime.datetime.fromisoformat]; [None] stands for [ValueError] *)
  fromisoformat : string -> option Z
}.

(** ** Tables *)

Module Users.
Record row := {
  user_id : string;
  username : string;
  password_hash : string
}.
End Users.

Module ApiTokens.
Record row := {
  token : string;
  user_id : string;
  created_at : Z
}.
End ApiTokens.

(** The columns of both schema variants; [status] and [updated_at] exist
    only in the table of [app_postgresql.py] and are [None] otherwise. *)
Module Incidents.
Record row := {
  incident_id : string;
  user_id : string;
  title : string;
  description : string;
  lat : string;
  long : string;
  image_url : option string;
  status : option string;
  created_at : Z;
  updated_at : option Z
}.
End Incidents.

(** The database and the upload directory (path and content of each file,
    most recent first). *)
Record world := {
  users : list Users.row;
  api_tokens : list ApiTokens.row;
  incidents : list Incidents.row;
  uploads : list (string * string)
}.

(** ** Requests and responses *)

(** [werkzeug.datastructures.FileStorage]; its truth value is that of its
    file name. *)
Record FileStorage := {
  filename : string;
  content : string
}.

Record request := {
  (** [request.headers['Authorization']], [None] when the header is absent *)
  Authorization : option string;
  (** [request.get_json()]: the JSON object of the body; [None] when the
      body is not a JSON object, in which case the handler raises *)
  json : option (list (string * json_value));
  (** [request.form] *)
  form : list (string * string);
  (** [request.files['image']], [None] when ['image' not in request.files] *)
  files_image : option FileStorage
}.

Record env := {
  (** the clock: [datetime.now(utc)], also the database's CURRENT_TIMESTAMP *)
  now : Z;
  (** whether [get_db_connection()] returns a connection, for the call made
      by the guard and for the call made by the route itself *)
  guard_conn : bool;
  route_conn : bool;
  (** the successive values of [str(uuid.uuid4())] during the request; a
      uuid has 36 characters, so the key columns always hold it *)
  uuid4 : nat -> string;
  (** the salt drawn by [generate_password_hash] *)
  salt : string
}.

Inductive payload :=
| no_payload
| user_payload (user_id : string)
| login_payload (token user_id username : string)
| incident_payload (incident : Incidents.row)
| required_received (required : list string) (received : list (string * string)).

Record response := {
  status_code : Z;
  message : string;
  body : payload
}.

(** [jsonify({'message': msg, ...}), code] *)
Definition jsonify (msg : string) (p : payload) (code : Z) : response :=
  {| status_code := code; message := msg; body := p |}.

Inductive exception := IndexError.

(** What the framework gets back from a view function: a response, or an
    exception that no [except] clause of the application caught. *)
Inductive outcome :=
| Responded (r : response)
| Unhandled (e : exception).

(** ** The session guard *)

Definition select_token (tok : string) (rows : list ApiTokens.row)
  : option ApiTokens.row :=
  find (fun r => String.eqb (ApiTokens.token r) tok) rows.

(** A protected view function: it receives the authenticated user id. *)
Definition view := string -> env -> request -> world -> response * world.

Definition call (f : view) (user_id : string) (e : env) (req : request)
  (w : world) : outcome * world :=
  let (r, w') := f user_id e req w in (Responded r, w').

(** The second piece of the Authorization header, [inl IndexError] when
    there is none; [inr None] when the header is absent. *)
Definition header_token (req : request) : exception + option string :=
  match Authorization req with
  | None => inr None
  | Some h =>
      match nth_error (split " "%char h) 1 with
      | Some tok => inr (Some tok)
      | None => inl IndexError
      end
  end.

(** The function [decorated] that [token_required(f)] returns.  The header
    is split before the [try] block, so its IndexError is caught by
    nothing; the view functions of the model return a response on every
    path, so the [except] clause around [f(user_id, ...)] has no case. *)
Definition token_required (f : view) (e : env) (req : request) (w : world)
  : outcome * world :=
  match header_token req with
  | inl exn => (Unhandled exn, w)
  | inr token =>
      if negb (truthy token) then
        (Responded (jsonify "Token is missing!" no_payload 401), w)
      else if negb (guard_conn e) then
        (Responded (jsonify "Database connection error." no_payload 500), w)
      else
        match select_token (str_of token) (api_tokens w) with
        | None =>
            (Responded (jsonify "Token is invalid or expired!" no_payload 401), w)
        | Some result =>
            let user_id := ApiTokens.user_id result in
            let now' := replace_microsecond_0 (now e) in
            let created_at_aware :=
              replace_microsecond_0 (ApiTokens.created_at result) in
            if now' - created_at_aware >? timedelta_hours 24 then
              (Responded (jsonify "Token is invalid or expired!" no_payload 401), w)
            else call f user_id e req w
        end
  end.

(** ** Table operations *)

Definition set_users (w : world) (rows : list Users.row) : world :=
  {| users := rows; api_tokens := api_tokens w;
     incidents := incidents w; uploads := uploads w |}.

Definition set_api_tokens (w : world) (rows : list ApiTokens.row) : world :=
  {| users := users w; api_tokens := rows;
     incidents := incidents w; uploads := uploads w |}.

Definition set_incidents (w : world) (rows : list Incidents.row) : world :=
  {| users := users w; api_tokens := api_tokens w;
     incidents := rows; uploads := uploads w |}.

Definition set_uploads (w : world) (files : list (string * string)) : world :=
  {| users := users w; api_tokens := api_tokens w;
     incidents := incidents w; uploads := files |}.

(** [SELECT ... FROM users WHERE username = %s] followed by [fetchone()] *)
Definition select_user (name : string) (rows : list Users.row)
  : option Users.row :=
  find (fun r => String.eqb (Users.username r) name) rows.

Definition has_user_id (uid : string) (rows : list Users.row) : bool :=
  existsb (fun r => String.eqb (Users.user_id r) uid) rows.

(** [SELECT ... FROM incidents WHERE incident_id = %s] and [fetchone()] *)
Definition select_incident (id : string) (rows : list Incidents.row)
  : option Incidents.row :=
  find (fun r => String.eqb (Incidents.incident_id r) id) rows.

(** [INSERT INTO users]: [user_id] is the primary key, [username] is
    UNIQUE, [username] and [password_hash] are VARCHAR(255).  [None] is the
    error raised by the driver. *)
Definition insert_user (r : Users.row) (rows : list Users.row)
  : option (list Users.row) :=
  if has_user_id (Users.user_id r) rows
     || existsb (fun u => String.eqb (Users.username u) (Users.username r)) rows
     || negb (VARCHAR_255 (Users.username r)
              && VARCHAR_255 (Users.password_hash r))
  then None else Some (rows ++ [r])%list.

(** [INSERT INTO api_tokens]: [token] is the primary key, [user_id] is
    UNIQUE and references [users]. *)
Definition insert_token (r : ApiTokens.row) (us : list Users.row)
  (rows : list ApiTokens.row) : option (list ApiTokens.row) :=
  if existsb (fun t => String.eqb (ApiTokens.token t) (ApiTokens.token r)) rows
     || existsb (fun t => String.eqb (ApiTokens.user_id t) (ApiTokens.user_id r)) rows
     || negb (has_user_id (ApiTokens.user_id r) us)
  then None else Some (rows ++ [r])%list.

(** The values of a row written from the request fit their columns:
    [title], [lat], [long] and [image_url] are VARCHAR(255), [description]
    is TEXT. *)
Definition fits_columns (title lat long image_url : option string) : bool :=
  VARCHAR_255_or_null title && VARCHAR_255_or_null lat
  && VARCHAR_255_or_null long && VARCHAR_255_or_null image_url.

Arguments fits_columns : simpl never.

(** [INSERT INTO incidents]: [incident_id] is the primary key, [user_id]
    references [users], and the values must fit their columns. *)
Definition insert_incident (r : Incidents.row) (us : list Users.row)
  (rows : list Incidents.row) : option (list Incidents.row) :=
  if existsb (fun i => String.eqb (Incidents.incident_id i) (Incidents.incident_id r)) rows
     || negb (has_user_id (Incidents.user_id r) us)
     || negb (fits_columns (Some (Incidents.title r)) (Some (Incidents.lat r))
                (Some (Incidents.long r)) (Incidents.image_url r))
  then None else Some (rows ++ [r])%list.

(** ** Registration, login, logout *)

Definition register {L : Library} (e : env) (req : request) (w : world)
  : response * world :=
  if negb (route_conn e) then
    (jsonify "Database connection error." no_payload 500, w)
  else
    match json req with
    | None => (jsonify "An error occurred during registration." no_payload 500, w)
    | Some data =>
        let username := json_get data "username" in
        let password := json_get data "password" in
        if negb (json_truthy username) || negb (json_truthy password) then
          (jsonify "Username and password are required." no_payload 400, w)
        else
          match username with
          | Some (JString name) =>
              match select_user name (users w) with
              | Some _ => (jsonify "User already exists." no_payload 409, w)
              | None =>
                  let user_id := uuid4 e 0%nat in
                  match generate_password_hash (json_of password) (salt e) with
                  | None =>
                      (jsonify "An error occurred during registration."
                         no_payload 500, w)
                  | Some hashed_password =>
                      match insert_user
                              {| Users.user_id := user_id;
                                 Users.username := name;
                                 Users.password_hash := hashed_password |}
                              (users w) with
                      | None =>
                          (jsonify "An error occurred during registration."
                             no_payload 500, w)
                      | Some rows =>
                          (jsonify "User created successfully."
                             (user_payload user_id) 201,
                           set_users w rows)
                      end
                  end
              end
          | _ =>
              (* the SELECT raises: a value that is not a string cannot be
                 compared with the VARCHAR column *)
              (jsonify "An error occurred during registration." no_payload 500, w)
          end
    end.

Definition login {L : Library} (e : env) (req : request) (w : world)
  : response * world :=
  if negb (route_conn e) then
    (jsonify "Database connection error." no_payload 500, w)
  else
    match json req with
    | None => (jsonify "An error occurred during login." no_payload 500, w)
    | Some data =>
        let username := json_get data "username" in
        let password := json_get data "password" in
        if negb (json_truthy username) || negb (json_truthy password) then
          (jsonify "Username and password are required." no_payload 400, w)
        else
          match username with
          | Some (JString name) =>
              match select_user name (users w) with
              | None => (jsonify "Invalid username or password." no_payload 401, w)
              | Some user_data =>
                  (* [not user_data or not check_password_hash(...)]: the
                     hash is checked for a known user only *)
                  match check_password_hash (Users.password_hash user_data)
                          (json_of password) with
                  | None =>
                      (jsonify "An error occurred during login." no_payload 500, w)
                  | Some false =>
                      (jsonify "Invalid username or password." no_payload 401, w)
                  | Some true =>
                      let user_id := Users.user_id user_data in
                      (* DELETE FROM api_tokens WHERE user_id = %s *)
                      let kept :=
                        filter
                          (fun t => negb (String.eqb (ApiTokens.user_id t) user_id))
                          (api_tokens w) in
                      let token := uuid4 e 0%nat in
                      match insert_token
                              {| ApiTokens.token := token;
                                 ApiTokens.user_id := user_id;
                                 ApiTokens.created_at := now e |}
                              (users w) kept with
                      | None =>
                          (jsonify "An error occurred during login."
                             no_payload 500, w)
                      | Some rows =>
                          (jsonify "Login successful."
                             (login_payload token user_id name) 200,
                           set_api_tokens w rows)
                      end
                  end
              end
          | _ =>
              (* the SELECT raises: a value that is not a string cannot be
                 compared with the VARCHAR column *)
              (jsonify "An error occurred during login." no_payload 500, w)
          end
    end.

Definition logout : view := fun user_id e req w =>
  if negb (route_conn e) then
    (jsonify "Database connection error." no_payload 500, w)
  else
    match header_token req with
    | inr (Some token) =>
        (* DELETE FROM api_tokens WHERE user_id = %s AND token = %s *)
        (jsonify "Logout successful." no_payload 200,
         set_api_tokens w
           (filter (fun t => negb (String.eqb (ApiTokens.user_id t) user_id
                                   && String.eqb (ApiTokens.token t) token))
              (api_tokens w)))
    | _ => (jsonify "An error occurred during logout." no_payload 500, w)
    end.

(** ** Incidents *)

(** [file and allowed_file(file.filename)] *)
Definition accepted (file : FileStorage) : bool :=
  negb (String.eqb (filename file) EmptyString) && allowed_file (filename file).

(** The upload block shared by the three routes: the file is written under
    [UPLOAD_FOLDER] with the [k]-th uuid of the request in front of its
    sanitised name; the result is the new [image_url] and the new world. *)
Definition save_upload {L : Library} (e : env) (k : nat) (file : FileStorage)
  (w : world) : string * world :=
  let unique_filename := uuid4 e k ++ "_" ++ secure_filename (filename file) in
  let filepath := "uploads/" ++ unique_filename in
  ("/uploads/" ++ unique_filename,
   set_uploads w ((filepath, content file) :: uploads w)).

Definition required_fields : list string := ["title"; "description"; "lat"; "long"].

(** [all(request.form.get(field) for field in required_fields)] *)
Definition all_required (f : list (string * string)) : bool :=
  forallb (fun field => truthy (dict_get f field)) required_fields.

Module app_postresql.

(** [datetime.fromisoformat(created_at_str.replace('Z', '+00:00'))] when the
    field is given and parses, [None] otherwise. *)
Definition created_at_dt {L : Library} (created_at_str : option string) : option Z :=
  if truthy created_at_str then fromisoformat (replace_Z (str_of created_at_str))
  else None.

(** The statements of [create_incident] from [incident_id = str(uuid.uuid4())]
    on; [k] counts the uuids already drawn. *)
Definition create_incident_insert {L : Library} (user_id : string) (e : env)
  (req : request) (image_url : option string) (k : nat) (w : world)
  : response * world :=
  let incident_id := uuid4 e k in
  let new_row :=
    {| Incidents.incident_id := incident_id;
       Incidents.user_id := user_id;
       Incidents.title := str_of (dict_get (form req) "title");
       Incidents.description := str_of (dict_get (form req) "description");
       Incidents.lat := str_of (dict_get (form req) "lat");
       Incidents.long := str_of (dict_get (form req) "long");
       Incidents.image_url := image_url;
       Incidents.status := None;
       Incidents.created_at :=
         match created_at_dt (dict_get (form req) "created_at") with
         | Some dt => dt
         | None => now e
         end;
       Incidents.updated_at := None |} in
  match insert_incident new_row (users w) (incidents w) with
  | None =>
      (jsonify "An error occurred while creating the incident." no_payload 500, w)
  | Some rows =>
      match select_incident incident_id rows with
      | Some incident =>
          (jsonify "Incident created successfully." (incident_payload incident) 201,
           set_incidents w rows)
      | None =>
          (jsonify "An error occurred while creating the incident." no_payload 500,
           set_incidents w rows)
      end
  end.

Definition create_incident {L : Library} : view := fun user_id e req w =>
  if negb (route_conn e) then
    (jsonify "Database connection error." no_payload 500, w)
  else
    let title := dict_get (form req) "title" in
    let description := dict_get (form req) "description" in
    let lat := dict_get (form req) "lat" in
    let long := dict_get (form req) "long" in
    if negb (truthy title && truthy description && truthy lat && truthy long) then
      (jsonify "All required fields (title, description, lat, long) are missing."
         no_payload 400, w)
    else
      match files_image req with
      | Some file =>
          if accepted file then
            let (image_url, w1) := save_upload e 0%nat file w in
            create_incident_insert user_id e req (Some image_url) 1%nat w1
          else
            (jsonify "Invalid file type." no_payload 400, w)
      | None => create_incident_insert user_id e req None 0%nat w
      end.

(** [get_incident]: the row is the whole body of the 200 response, which
    has no ['message'] key; the empty message stands for its absence. *)
Definition get_incident (incident_id : string) : view :=
  fun user_id e req w =>
  if negb (route_conn e) then
    (jsonify "Database connection error." no_payload 500, w)
  else
    match select_incident incident_id (incidents w) with
    | None => (jsonify "Incident not found." no_payload 404, w)
    | Some incident => (jsonify EmptyString (incident_payload incident) 200, w)
    end.

End app_postresql.

Module app_postgresql.

(** The statements of [create_incident] from [# Validate required fields]
    on.  The database draws the [id] of the new row (the [k]-th uuid here)
    and fills [status], [created_at] and [updated_at] with their defaults. *)
Definition create_incident_insert (user_id : string) (e : env)
  (req : request) (image_url : option string) (k : nat) (w : world)
  : response * world :=
  if negb (all_required (form req)) then
    (jsonify "Missing required fields"
       (required_received required_fields (form req)) 400, w)
  else
    let new_row :=
      {| Incidents.incident_id := uuid4 e k;
         Incidents.user_id := user_id;
         Incidents.title := str_of (dict_get (form req) "title");
         Incidents.description := str_of (dict_get (form req) "description");
         Incidents.lat := str_of (dict_get (form req) "lat");
         Incidents.long := str_of (dict_get (form req) "long");
         Incidents.image_url := image_url;
         Incidents.status := Some "open";
         Incidents.created_at := now e;
         Incidents.updated_at := Some (now e) |} in
    match insert_incident new_row (users w) (incidents w) with
    | None =>
        (jsonify "An error occurred while creating the incident" no_payload 500, w)
    | Some rows =>
        (jsonify "Incident created successfully" (incident_payload new_row) 201,
         set_incidents w rows)
    end.

Definition create_incident {L : Library} : view := fun user_id e req w =>
  if negb (route_conn e) then
    (jsonify "Database connection error." no_payload 500, w)
  else
    match files_image req with
    | Some file =>
        if accepted file then
          let (image_url, w1) := save_upload e 0%nat file w in
          create_incident_insert user_id e req (Some image_url) 1%nat w1
        else if negb (String.eqb (filename file) EmptyString) then
          (jsonify "Invalid file type." no_payload 400, w)
        else create_incident_insert user_id e req None 0%nat w
    | None => create_incident_insert user_id e req None 0%nat w
    end.

End app_postgresql.

(** The row after [UPDATE incidents SET ...], when the statement succeeds,
    with the clauses that [update_incident] collects in [update_fields]:
    one for each of the form fields that is not [None], one for
    [image_url] when a file was saved.  [update_incident] tests before it
    that the values fit their columns. *)
Definition apply_update (title description lat long image_url : option string)
  (r : Incidents.row) : Incidents.row :=
  {| Incidents.incident_id := Incidents.incident_id r;
     Incidents.user_id := Incidents.user_id r;
     Incidents.title :=
       match title with Some v => v | None => Incidents.title r end;
     Incidents.description :=
       match description with Some v => v | None => Incidents.description r end;
     Incidents.lat := match lat with Some v => v | None => Incidents.lat r end;
     Incidents.long := match long with Some v => v | None => Incidents.long r end;
     Incidents.image_url :=
       match image_url with Some v => Some v | None => Incidents.image_url r end;
     Incidents.status := Incidents.status r;
     Incidents.created_at := Incidents.created_at r;
     Incidents.updated_at := Incidents.updated_at r |}.

Definition is_some {A : Type} (x : option A) : bool :=
  match x with Some _ => true | None => false end.

Definition update_incident {L : Library} (incident_id : string) : view :=
  fun user_id e req w =>
  if negb (route_conn e) then
    (jsonify "Database connection error." no_payload 500, w)
  else
    match select_incident incident_id (incidents w) with
    | None => (jsonify "Incident not found." no_payload 404, w)
    | Some incident =>
        if negb (String.eqb (Incidents.user_id incident) user_id) then
          (jsonify "You do not have permission to update this incident."
             no_payload 403, w)
        else
          let title := dict_get (form req) "title" in
          let description := dict_get (form req) "description" in
          let lat := dict_get (form req) "lat" in
          let long := dict_get (form req) "long" in
          let (image_url, w1) :=
            match files_image req with
            | Some file =>
                if accepted file then
                  let (url, w1) := save_upload e 0%nat file w in (Some url, w1)
                else (None, w)
            | None => (None, w)
            end in
          if negb (is_some title || is_some description || is_some lat
                   || is_some long || is_some image_url) then
            (jsonify "No fields provided for update." no_payload 400, w1)
          else if negb (fits_columns title lat long image_url) then
            (* the UPDATE raises: a value is too long for its column *)
            (jsonify "An error occurred while updating the incident."
               no_payload 500, w1)
          else
            (* UPDATE incidents SET ... WHERE incident_id=%s *)
            let rows :=
              map (fun r =>
                     if String.eqb (Incidents.incident_id r) incident_id
                     then apply_update title description lat long image_url r
                     else r)
                (incidents w1) in
            let w2 := set_incidents w1 rows in
            match select_incident incident_id rows with
            | Some updated_incident =>
                (jsonify "Incident updated successfully."
                   (incident_payload updated_incident) 200, w2)
            | None =>
                (jsonify "An error occurred while updating the incident."
                   no_payload 500, w2)
            end
    end.

Definition delete_incident (incident_id : string) : view :=
  fun user_id e req w =>
  if negb (route_conn e) then
    (jsonify "Database connection error." no_payload 500, w)
  else
    match select_incident incident_id (incidents w) with
    | None => (jsonify "Incident not found." no_payload 404, w)
    | Some incident =>
        (* DELETE FROM incidents WHERE incident_id = %s *)
        (jsonify "Incident deleted successfully." no_payload 200,
         set_incidents w
           (filter (fun r => negb (String.eqb (Incidents.incident_id r) incident_id))
              (incidents w)))
    end.

(** ** Listing the incidents *)

(** [ORDER BY created_at DESC]: the row goes in front of the first row that
    is not more recent than it.  Rows with the same timestamp come in an
    order that the database chooses; here they keep the order of the
    table. *)
Fixpoint insert_desc (r : Incidents.row) (l : list Incidents.row)
  : list Incidents.row :=
  match l with
  | [] => [r]
  | x :: t =>
      if Incidents.created_at x <=? Incidents.created_at r then r :: l
      else x :: insert_desc r t
  end.

Definition order_by_created_at_desc (rows : list Incidents.row)
  : list Incidents.row :=
  fold_right insert_desc [] rows.

(** What [get_all_incidents] answers: the list [incidents] with status 200,
    or an error message. *)
Inductive listing :=
| Listed (incidents : list Incidents.row) (code : Z)
| Refused (r : response).

(** [get_all_incidents], the same in both files. *)
Definition get_all_incidents (user_id : string) (e : env) (w : world) : listing :=
  if negb (route_conn e) then
    Refused (jsonify "Database connection error." no_payload 500)
  else
    Listed (order_by_created_at_desc (incidents w)) 200.

(** ** The routing table *)

(** The two source files are two applications over the same routes. *)
Inductive app := postresql_app | postgresql_app.

(** The routes that write; the GET routes leave the world as it is. *)
Inductive route :=
| POST_register
| POST_login
| POST_logout
| POST_incidents
| PUT_incident (incident_id : string)
| DELETE_incident (incident_id : string).

Definition respond (x : response * world) : outcome * world :=
  let (r, w) := x in (Responded r, w).

Definition dispatch {L : Library} (a : app) (rt : route) (e : env) (req : request)
  (w : world) : outcome * world :=
  match rt with
  | POST_register => respond (register e req w)
  | POST_login => respond (login e req w)
  | POST_logout => token_required logout e req w
  | POST_incidents =>
      match a with
      | postresql_app => token_required app_postresql.create_incident e req w
      | postgresql_app => token_required app_postgresql.create_incident e req w
      end
  | PUT_incident id => token_required (update_incident id) e req w
  | DELETE_incident id => token_required (delete_incident id) e req w
  end.

(** * Vocabulary of the properties *)

(** ** The responses that the properties name *)

Definition token_missing : response := jsonify "Token is missing!" no_payload 401.
Definition token_invalid : response :=
  jsonify "Token is invalid or expired!" no_payload 401.

Definition login_successful (tok uid name : string) : response :=
  jsonify "Login successful." (login_payload tok uid name) 200.

Definition user_exists : response := jsonify "User already exists." no_payload 409.
Definition credentials_required : response :=
  jsonify "Username and password are required." no_payload 400.
Definition login_refused : response :=
  jsonify "Invalid username or password." no_payload 401.

Definition incident_deleted : response :=
  jsonify "Incident deleted successfully." no_payload 200.
Definition incident_not_found : response :=
  jsonify "Incident not found." no_payload 404.
Definition update_forbidden : response :=
  jsonify "You do not have permission to update this incident." no_payload 403.

Definition fields_missing : response :=
  jsonify "All required fields (title, description, lat, long) are missing."
    no_payload 400.

(** ** Sessions *)

(** The age test of the guard, on whole seconds. *)
Definition expired (e : env) (row : ApiTokens.row) : bool :=
  replace_microsecond_0 (now e) - replace_microsecond_0 (ApiTokens.created_at row)
  >? timedelta_hours 24.

(** A request carries a valid session of [uid]: its header holds a token
    of the table that belongs to [uid] and is not older than the window. *)
Definition valid_session (e : env) (req : request) (w : world) (uid : string)
  : Prop :=
  exists tok row,
    header_token req = inr (Some tok) /\ tok <> EmptyString /\
    guard_conn e = true /\
    select_token tok (api_tokens w) = Some row /\
    ApiTokens.user_id row = uid /\
    expired e row = false.

(** The number of occurrences of a character in a string. *)
Fixpoint count_char (c : ascii) (s : string) : nat :=
  match s with
  | EmptyString => 0%nat
  | String a r => ((if Ascii.eqb a c then 1 else 0) + count_char c r)%nat
  end.

(** ** The token table *)

(** The rows of the token table held by a user. *)
Definition tokens_of (uid : string) (rows : list ApiTokens.row)
  : list ApiTokens.row :=
  filter (fun t => String.eqb (ApiTokens.user_id t) uid) rows.

Definition single_token_per_user (rows : list ApiTokens.row) : Prop :=
  forall uid, (List.length (tokens_of uid rows) <= 1)%nat.

(** The table after [DELETE FROM api_tokens WHERE user_id = uid] and the
    insertion of one row for [uid]. *)
Definition reissued (uid tok : string) (t : Z) (rows : list ApiTokens.row)
  : list ApiTokens.row :=
  (filter (fun r => negb (String.eqb (ApiTokens.user_id r) uid)) rows
   ++ [{| ApiTokens.token := tok; ApiTokens.user_id := uid;
          ApiTokens.created_at := t |}])%list.

(** The worlds that a sequence of requests leads to. *)
Inductive reachable {L : Library} (a : app) (w0 : world) : world -> Prop :=
| reach_start : reachable a w0 w0
| reach_step (w : world) (rt : route) (e : env) (req : request) :
    reachable a w0 w -> reachable a w0 (snd (dispatch a rt e req w)).

(** ** The incident table *)

Definition not_this (id : string) (r : Incidents.row) : bool :=
  negb (String.eqb (Incidents.incident_id r) id).

(** [UPDATE incidents SET ... WHERE incident_id = id], row by row. *)
Definition patch (id : string) (g : Incidents.row -> Incidents.row)
  (r : Incidents.row) : Incidents.row :=
  if String.eqb (Incidents.incident_id r) id then g r else r.



(** ** Two claims of the specification, as it words them *)

(** C7 as the specification words it: a taken username is answered 409
    whatever the password. *)
Definition conflict_whatever_password {L : Library} : Prop :=
  forall (e : env) (req : request) (w : world)
         (data : list (string * json_value)) (name : string)
         (password : json_value),
    route_conn e = true -> json req = Some data ->
    json_get data "username" = Some (JString name) ->
    json_get data "password" = Some password ->
    select_user name (users w) <> None ->
    register e req w = (user_exists, w).


(** * A small world, to run the model *)

(** A concrete library: passwords are stored as they are and a password
    that is not a string raises, file names are kept, no timestamp
    parses. *)
Definition plain_library : Library :=
  {| generate_password_hash :=
       fun password _ =>
         match password with JString p => Some p | _ => None end;
     check_password_hash :=
       fun pwhash password =>
         match password with
         | JString p => Some (String.eqb pwhash p)
         | _ => None
         end;
     secure_filename := fun name => name;
     fromisoformat := fun _ => None |}.

Definition alice : Users.row :=
  {| Users.user_id := "u-alice"; Users.username := "alice";
     Users.password_hash := "pw1" |}.

Definition bob : Users.row :=
  {| Users.user_id := "u-bob"; Users.username := "bob";
     Users.password_hash := "pw2" |}.

Definition pothole : Incidents.row :=
  {| Incidents.incident_id := "i-1"; Incidents.user_id := "u-alice";
     Incidents.title := "Pothole"; Incidents.description := "Deep one";
     Incidents.lat := "-1.28"; Incidents.long := "36.82";
     Incidents.image_url := Some "/uploads/old.png";
     Incidents.status := None; Incidents.created_at := 0;
     Incidents.updated_at := None |}.

(** Bob's token, issued half a second after the epoch. *)
Definition bob_token : ApiTokens.row :=
  {| ApiTokens.token := "t-bob"; ApiTokens.user_id := "u-bob";
     ApiTokens.created_at := 500000 |}.

Definition alice_token : ApiTokens.row :=
  {| ApiTokens.token := "t-alice"; ApiTokens.user_id := "u-alice";
     ApiTokens.created_at := 500000 |}.

Definition small_world : world :=
  {| users := [alice; bob]; api_tokens := [alice_token; bob_token];
     incidents := [pothole]; uploads := [] |}.

(** A request environment at time [t], the database reachable, whose uuids
    are the [seed] followed by a letter. *)
Definition seeded (seed : string) (t : Z) : env :=
  {| now := t; guard_conn := true; route_conn := true;
     uuid4 := fun n => seed ++ String (ascii_of_nat (97 + n)) EmptyString;
     salt := "s" |}.

Definition at_time : Z -> env := seeded "uuid-".

Definition bearer (tok : string) (fm : list (string * string))
  (fi : option FileStorage) : request :=
  {| Authorization := Some ("Bearer " ++ tok); json := None; form := fm;
     files_image := fi |}.

(** The body of a register or login request with any JSON value as
    password. *)
Definition posted (name : string) (password : json_value) : request :=
  {| Authorization := None;
     json := Some [("username", JString name); ("password", password)];
     form := []; files_image := None |}.

Definition credentials (name password : string) : request :=
  posted name (JString password).

Definition photo : FileStorage := {| filename := "Hole.PNG"; content := "bytes" |}.

Definition notes : FileStorage := {| filename := "notes.txt"; content := "text" |}.

(** * Vocabulary of the further properties *)

(** No space occurs in the string. *)
Definition no_space (s : string) : Prop := count_char " "%char s = 0%nat.

(** No dot occurs in the string. *)
Definition no_dot (s : string) : Prop := count_char "."%char s = 0%nat.

(** The keys of the three tables are pairwise different. *)
Definition unique_tokens (rows : list ApiTokens.row) : Prop :=
  NoDup (map ApiTokens.token rows).

Definition unique_usernames (rows : list Users.row) : Prop :=
  NoDup (map Users.username rows).

Definition unique_incident_ids (rows : list Incidents.row) : Prop :=
  NoDup (map Incidents.incident_id rows).

(** Every token and every incident belongs to a user of the table. *)
Definition references_users (w : world) : Prop :=
  (forall t, In t (api_tokens w) ->
             has_user_id (ApiTokens.user_id t) (users w) = true)
  /\ (forall i, In i (incidents w) ->
                has_user_id (Incidents.user_id i) (users w) = true).

(** The request without its file part. *)
Definition without_file (req : request) : request :=
  {| Authorization := Authorization req; json := json req; form := form req;
     files_image := None |}.


Definition invalid_file_type : response :=
  jsonify "Invalid file type." no_payload 400.
Definition no_fields_provided : response :=
  jsonify "No fields provided for update." no_payload 400.
Definition logout_successful : response :=
  jsonify "Logout successful." no_payload 200.



(** The user table after a request: as before, or with one more row whose
    name was free. *)
Definition users_step (w w' : world) : Prop :=
  users w' = users w
  \/ exists r, users w' = (users w ++ [r])%list
               /\ select_user (Users.username r) (users w) = None.

Definition carol_registers : world :=
  snd (dispatch (L := plain_library) postresql_app POST_register
         (seeded "one-" 1000) (credentials "carol" "pw3") small_world).

(** Four requests in a row against the small world: Alice logs in again
    and gets the token "one-a"; with it she gives her incident a photo; she
    reports a flood with a photo of its own; Bob deletes her first
    incident. *)
Definition alice_logs_in : world :=
  snd (dispatch (L := plain_library) postresql_app POST_login
         (seeded "one-" 1000000) (credentials "alice" "pw1") small_world).

Definition alice_adds_photo : world :=
  snd (dispatch (L := plain_library) postresql_app (PUT_incident "i-1")
         (seeded "two-" 2000000) (bearer "one-a" [] (Some photo))
         alice_logs_in).

Definition flood_report : request :=
  bearer "one-a"
    [("title", "Flood"); ("description", "Road under water");
     ("lat", "-1.3"); ("long", "36.8")] (Some photo).

Definition alice_reports_flood : world :=
  snd (dispatch (L := plain_library) postresql_app POST_incidents
         (seeded "three-" 3000000) flood_report alice_adds_photo).

Definition bob_deletes_pothole : world :=
  snd (dispatch (L := plain_library) postresql_app (DELETE_incident "i-1")
         (seeded "four-" 4000000) (bearer "t-bob" [] None)
         alice_reports_flood).




Definition unnamed : FileStorage :=
  {| filename := EmptyString; content := EmptyString |}.

Definition offline (t : Z) : env :=
  {| now := t; guard_conn := false; route_conn := false;
     uuid4 := uuid4 (at_time t); salt := salt (at_time t) |}.

(** [a] may stand before [b] in the list: it is not older. *)
Definition not_older (a b : Incidents.row) : Prop :=
  Incidents.created_at b <= Incidents.created_at a.

(** The three tables are the same in both worlds. *)
Definition same_tables (w w' : world) : Prop :=
  users w' = users w /\ api_tokens w' = api_tokens w
  /\ incidents w' = incidents w.

(** The incident table after a request: as before, with one more row under
    a free id and an existing owner, with the rows of one id patched (id
    and owner kept), or without the rows of one id. *)
Definition incidents_step (w w' : world) : Prop :=
  incidents w' = incidents w
  \/ (exists r, incidents w' = (incidents w ++ [r])%list
                /\ select_incident (Incidents.incident_id r) (incidents w) = None
                /\ has_user_id (Incidents.user_id r) (users w) = true)
  \/ (exists id g,
        (forall r, Incidents.incident_id (g r) = Incidents.incident_id r
                   /\ Incidents.user_id (g r) = Incidents.user_id r)
        /\ incidents w' = map (patch id g) (incidents w))
  \/ (exists id, incidents w' = filter (not_this id) (incidents w)).

(** * Properties *)

Ltac euclid := Z.to_euclidean_division_equations; lia.

(** ** Whole seconds *)

Lemma replace_microsecond_0_mono (a b : Z) :
  a <= b -> replace_microsecond_0 a <= replace_microsecond_0 b.
Proof. unfold replace_microsecond_0, microseconds_per_second. intros; euclid. Qed.

Lemma replace_microsecond_0_shift (a : Z) :
  replace_microsecond_0 (a + timedelta_hours 24)
  = replace_microsecond_0 a + timedelta_hours 24.
Proof.
  unfold replace_microsecond_0, timedelta_hours, microseconds_per_second.
  euclid.
Qed.

Lemma replace_microsecond_0_bounds (a : Z) :
  replace_microsecond_0 a <= a < replace_microsecond_0 a + microseconds_per_second.
Proof. unfold replace_microsecond_0, microseconds_per_second. euclid. Qed.

(** ** The guard *)

Lemma truthy_Some (s : string) : s <> EmptyString -> truthy (Some s) = true.
Proof.
  intros Hs. unfold truthy. destruct (String.eqb_spec s EmptyString); [contradiction | reflexivity].
Qed.

Lemma token_required_found (f : view) (e : env) (req : request) (w : world)
  (tok : string) (row : ApiTokens.row) :
  header_token req = inr (Some tok) -> tok <> EmptyString -> guard_conn e = true ->
  select_token tok (api_tokens w) = Some row ->
  token_required f e req w
  = if expired e row then (Responded token_invalid, w)
    else call f (ApiTokens.user_id row) e req w.
Proof.
  intros Hh Hs Hc Hrow. unfold token_required.
  rewrite Hh, (truthy_Some _ Hs), Hc. simpl. rewrite Hrow.
  reflexivity.
Qed.

Lemma token_required_valid (f : view) (e : env) (req : request) (w : world)
  (uid : string) :
  valid_session e req w uid ->
  token_required f e req w = call f uid e req w.
Proof.
  intros (tok & row & Hh & Hs & Hc & Hrow & Hu & Hage).
  rewrite (token_required_found f e req w tok row Hh Hs Hc Hrow).
  unfold expired in Hage |- *. rewrite Hage, Hu. reflexivity.
Qed.

Lemma token_required_absent_header (f : view) (e : env) (req : request)
  (w : world) :
  Authorization req = None ->
  token_required f e req w = (Responded token_missing, w).
Proof.
  intros Hh. unfold token_required, header_token. rewrite Hh. reflexivity.
Qed.

Lemma token_required_empty_token (f : view) (e : env) (req : request)
  (w : world) :
  header_token req = inr (Some EmptyString) ->
  token_required f e req w = (Responded token_missing, w).
Proof.
  intros Hh. unfold token_required. rewrite Hh. reflexivity.
Qed.

Lemma token_required_unknown_token (f : view) (e : env) (req : request)
  (w : world) (tok : string) :
  header_token req = inr (Some tok) ->
  select_token tok (api_tokens w) = None ->
  exists r, (status_code r = 401 \/ status_code r = 500) /\
            forall g, token_required g e req w = (Responded r, w).
Proof.
  intros Hh Hnone. unfold token_required. rewrite Hh.
  destruct (truthy (Some tok)); simpl.
  - destruct (guard_conn e); simpl.
    + rewrite Hnone. exists token_invalid. split; [left | ]; reflexivity.
    + exists (jsonify "Database connection error." no_payload 500).
      split; [right | ]; reflexivity.
  - exists token_missing. split; [left | ]; reflexivity.
Qed.

Lemma split_length (c : ascii) (s : string) :
  List.length (split c s) = S (count_char c s).
Proof.
  induction s as [| a r IH]; simpl; [reflexivity |].
  destruct (Ascii.eqb a c); simpl.
  - now rewrite IH.
  - destruct (split c r) as [| h t]; simpl in *; [discriminate | exact IH].
Qed.

(** A header without any space makes the guard raise, outside every [try]. *)
Lemma header_without_space_raises (f : view) (e : env) (req : request)
  (w : world) (h : string) :
  Authorization req = Some h -> count_char " "%char h = 0%nat ->
  token_required f e req w = (Unhandled IndexError, w).
Proof.
  intros Hh Hc. unfold token_required, header_token. rewrite Hh.
  pose proof (split_length " "%char h) as Hl. rewrite Hc in Hl.
  destruct (split " "%char h) as [| p [| q t]]; simpl in *; try discriminate.
  reflexivity.
Qed.

(** C9 (code defect).  A request whose Authorization header is present but
    holds no space, such as the empty header or the bare word "Bearer",
    supplies no bearer credential; the guard does not answer 401 "Token is
    missing!" there: [split(" ")[1]] raises IndexError before the first
    [try], so the request ends in an unhandled exception.  The protected
    view is not run. *)
Theorem empty_authorization_header_raises (f : view) (e : env) (w : world)
  (j : option (list (string * json_value))) (fm : list (string * string))
  (fi : option FileStorage) :
  token_required f e
    {| Authorization := Some EmptyString; json := j; form := fm; files_image := fi |} w
  = (Unhandled IndexError, w)
  /\
  token_required f e
    {| Authorization := Some "Bearer"; json := j; form := fm; files_image := fi |} w
  = (Unhandled IndexError, w).
Proof.
  split; eapply header_without_space_raises; reflexivity.
Qed.

(** ** C2: the validity window *)

(** C2.  For a token of the table issued at [t0] (its [created_at]) and a
    check time [now], both normalised to UTC and truncated to whole seconds
    before they are compared, as the guard does: when the check time lies
    in the closed interval from [t0] to [t0 + 24 h], the request passes
    the guard, which runs the view with the token's user; when the check
    time is later than [t0 + 24 h], the guard answers 401 "Token is
    invalid or expired!" and the view is not run.  A check time whose
    instant, before truncation, lies between the instant of the issue and
    24 hours after it is in the first case. *)
Theorem token_window (f : view) (e : env) (req : request) (w : world)
  (tok : string) (row : ApiTokens.row) :
  header_token req = inr (Some tok) -> tok <> EmptyString -> guard_conn e = true ->
  select_token tok (api_tokens w) = Some row ->
  (replace_microsecond_0 (ApiTokens.created_at row)
   <= replace_microsecond_0 (now e)
   <= replace_microsecond_0 (ApiTokens.created_at row) + timedelta_hours 24 ->
   token_required f e req w = call f (ApiTokens.user_id row) e req w)
  /\
  (replace_microsecond_0 (ApiTokens.created_at row) + timedelta_hours 24
   < replace_microsecond_0 (now e) ->
   token_required f e req w = (Responded token_invalid, w))
  /\
  (ApiTokens.created_at row <= now e <= ApiTokens.created_at row + timedelta_hours 24 ->
   token_required f e req w = call f (ApiTokens.user_id row) e req w).
Proof.
  intros Hh Hs Hc Hrow.
  rewrite (token_required_found f e req w tok row Hh Hs Hc Hrow).
  unfold expired.
  destruct (Z.gtb_spec
              (replace_microsecond_0 (now e)
               - replace_microsecond_0 (ApiTokens.created_at row))
              (timedelta_hours 24)) as [Hgt | Hle].
  - split; [| split].
    + intros [_ Hup]. exfalso. lia.
    + reflexivity.
    + intros [_ Hup]. exfalso.
      apply replace_microsecond_0_mono in Hup.
      rewrite replace_microsecond_0_shift in Hup. lia.
  - split; [| split].
    + reflexivity.
    + intros Hlate. exfalso. lia.
    + reflexivity.
Qed.

(** Bob's token was issued at 0.5 s and is presented at 24 h + 0.9 s: both
    instants truncate to whole seconds exactly 24 hours apart, the end of
    the closed interval. *)
Lemma token_window_witness :
  token_required logout (at_time (timedelta_hours 24 + 900000))
    (bearer "t-bob" [] None) small_world
  = call logout "u-bob" (at_time (timedelta_hours 24 + 900000))
      (bearer "t-bob" [] None) small_world.
Proof.
  assert (Hne : "t-bob" <> EmptyString) by discriminate.
  apply (proj1 (token_window logout (at_time (timedelta_hours 24 + 900000))
                  (bearer "t-bob" [] None)
                  small_world "t-bob" bob_token eq_refl Hne eq_refl eq_refl)).
  vm_compute. split; discriminate.
Defined.

(** ** Lists of rows *)

Lemma find_app_split {A : Type} (p : A -> bool) (l1 l2 : list A) :
  find p (l1 ++ l2)%list
  = match find p l1 with Some x => Some x | None => find p l2 end.
Proof.
  induction l1 as [| a l1 IH]; simpl; [reflexivity |].
  destruct (p a); [reflexivity | exact IH].
Qed.

Lemma find_filter_None {A : Type} (p q : A -> bool) (l : list A) :
  find p l = None -> find p (filter q l) = None.
Proof.
  induction l as [| a l IH]; simpl; [reflexivity |].
  destruct (p a) eqn:Hp; [discriminate |].
  intros H. destruct (q a); simpl; [rewrite Hp |]; auto.
Qed.

Lemma existsb_false_find {A : Type} (p : A -> bool) (l : list A) :
  existsb p l = false -> find p l = None.
Proof.
  induction l as [| a l IH]; simpl; [reflexivity |].
  destruct (p a); simpl; [discriminate | exact IH].
Qed.

Lemma filter_neg_filter {A : Type} (p : A -> bool) (l : list A) :
  filter p (filter (fun x => negb (p x)) l) = [].
Proof.
  induction l as [| a l IH]; simpl; [reflexivity |].
  destruct (p a) eqn:Hp; simpl; [exact IH | rewrite Hp; exact IH].
Qed.

Lemma filter_length_le {A : Type} (p q : A -> bool) (l : list A) :
  (List.length (filter p (filter q l)) <= List.length (filter p l))%nat.
Proof.
  induction l as [| a l IH]; simpl; [lia |].
  destruct (q a), (p a) eqn:Hp; simpl; try rewrite Hp; simpl; lia.
Qed.

Lemma filter_swap {A : Type} (p q : A -> bool) (l : list A) :
  filter p (filter q l) = filter q (filter p l).
Proof.
  induction l as [| a l IH]; simpl; [reflexivity |].
  destruct (q a) eqn:Hq, (p a) eqn:Hp; simpl;
    rewrite ?Hq, ?Hp, IH; reflexivity.
Qed.

(** ** C1: one live token per user *)

Lemma tokens_of_reissued_same (uid tok : string) (t : Z)
  (rows : list ApiTokens.row) :
  tokens_of uid (reissued uid tok t rows)
  = [{| ApiTokens.token := tok; ApiTokens.user_id := uid;
        ApiTokens.created_at := t |}].
Proof.
  unfold tokens_of, reissued. rewrite filter_app.
  rewrite (filter_neg_filter (fun r => String.eqb (ApiTokens.user_id r) uid)).
  simpl. rewrite String.eqb_refl. reflexivity.
Qed.

Lemma tokens_of_reissued_other (uid other tok : string) (t : Z)
  (rows : list ApiTokens.row) :
  other <> uid ->
  tokens_of other (reissued uid tok t rows)
  = filter (fun r => negb (String.eqb (ApiTokens.user_id r) uid))
      (tokens_of other rows).
Proof.
  intros Hne. unfold tokens_of, reissued. rewrite filter_app. simpl.
  destruct (String.eqb_spec uid other) as [-> | _]; [contradiction |].
  rewrite app_nil_r. apply filter_swap.
Qed.

Lemma reissued_single (uid tok : string) (t : Z) (rows : list ApiTokens.row) :
  single_token_per_user rows ->
  single_token_per_user (reissued uid tok t rows).
Proof.
  intros Hinv other. destruct (String.eqb_spec other uid) as [-> | Hne].
  - rewrite tokens_of_reissued_same. simpl. lia.
  - rewrite (tokens_of_reissued_other _ _ _ _ _ Hne).
    unfold tokens_of. rewrite filter_swap.
    etransitivity; [apply filter_length_le | apply Hinv].
Qed.

Lemma filter_single (q : ApiTokens.row -> bool) (rows : list ApiTokens.row) :
  single_token_per_user rows -> single_token_per_user (filter q rows).
Proof.
  intros Hinv uid. unfold tokens_of.
  etransitivity; [apply filter_length_le | apply Hinv].
Qed.

Section Auth.
Context {L : Library}.

(** What a login does to the world: nothing, or the replacement of the
    user's token rows by one new row. *)
Lemma login_cases (e : env) (req : request) (w : world) (r : response)
  (w' : world) :
  login e req w = (r, w') ->
  (w' = w /\ status_code r <> 200)
  \/ exists uid name,
       r = login_successful (uuid4 e 0%nat) uid name /\
       select_token (uuid4 e 0%nat)
         (filter (fun t => negb (String.eqb (ApiTokens.user_id t) uid))
            (api_tokens w)) = None /\
       w' = set_api_tokens w (reissued uid (uuid4 e 0%nat) (now e) (api_tokens w)).
Proof.
  unfold login.
  destruct (route_conn e); simpl;
    [| intros H; inversion H; left; split; [reflexivity | discriminate]].
  destruct (json req) as [data |];
    [| intros H; inversion H; left; split; [reflexivity | discriminate]].
  destruct (negb (json_truthy (json_get data "username"))
            || negb (json_truthy (json_get data "password")));
    [intros H; inversion H; left; split; [reflexivity | discriminate] |].
  destruct (json_get data "username") as [[| b | d x | name | items | members] |];
    try (intros H; inversion H; left; split; [reflexivity | discriminate]).
  destruct (select_user name (users w)) as [user_data |];
    [| intros H; inversion H; left; split; [reflexivity | discriminate]].
  destruct (check_password_hash _ _) as [[|] |]; simpl;
    try (intros H; inversion H; left; split; [reflexivity | discriminate]).
  unfold insert_token; simpl.
  destruct (existsb _ _) eqn:Hpk; simpl;
    [intros H; inversion H; left; split; [reflexivity | discriminate] |].
  destruct (existsb _ _ || _);
    [intros H; inversion H; left; split; [reflexivity | discriminate] |].
  intros H; inversion H; subst. right.
  exists (Users.user_id user_data), name.
  split; [reflexivity |]. split; [| reflexivity].
  apply existsb_false_find. exact Hpk.
Qed.

End Auth.

(** ** The routing table *)

Section Routing.
Context {L : Library}.

Ltac branches :=
  repeat (simpl;
          match goal with
          | |- context [match ?x with _ => _ end] => destruct x
          end);
  simpl; auto.

(** The guard runs the view or leaves the world alone. *)
Lemma token_required_world (f : view) (e : env) (req : request) (w : world) :
  snd (token_required f e req w) = w
  \/ exists uid, snd (token_required f e req w) = snd (f uid e req w).
Proof.
  unfold token_required.
  destruct (header_token req) as [exn | tok]; [left; reflexivity |].
  destruct (negb (truthy tok)); [left; reflexivity |].
  destruct (negb (guard_conn e)); [left; reflexivity |].
  destruct (select_token _ _) as [row |]; [| left; reflexivity].
  destruct (_ >? _); [left; reflexivity |].
  right. exists (ApiTokens.user_id row). unfold call.
  destruct (f _ e req w); reflexivity.
Qed.

Lemma register_api_tokens (e : env) (req : request) (w : world) :
  api_tokens (snd (register e req w)) = api_tokens w.
Proof. unfold register, insert_user. branches. Qed.

Lemma create_incident_postresql_api_tokens (uid : string) (e : env)
  (req : request) (w : world) :
  api_tokens (snd (app_postresql.create_incident uid e req w)) = api_tokens w.
Proof.
  unfold app_postresql.create_incident, app_postresql.create_incident_insert,
    insert_incident, save_upload.
  branches.
Qed.

Lemma create_incident_postgresql_api_tokens (uid : string) (e : env)
  (req : request) (w : world) :
  api_tokens (snd (app_postgresql.create_incident uid e req w)) = api_tokens w.
Proof.
  unfold app_postgresql.create_incident, app_postgresql.create_incident_insert,
    insert_incident, save_upload.
  branches.
Qed.

Lemma update_incident_api_tokens (id uid : string) (e : env) (req : request)
  (w : world) :
  api_tokens (snd (update_incident id uid e req w)) = api_tokens w.
Proof.
  unfold update_incident, save_upload.
  destruct (files_image req) as [file |]; [destruct (accepted file) |];
    branches.
Qed.

Lemma delete_incident_api_tokens (id uid : string) (e : env) (req : request)
  (w : world) :
  api_tokens (snd (delete_incident id uid e req w)) = api_tokens w.
Proof. unfold delete_incident. branches. Qed.

Lemma logout_single (uid : string) (e : env) (req : request) (w : world) :
  single_token_per_user (api_tokens w) ->
  single_token_per_user (api_tokens (snd (logout uid e req w))).
Proof.
  intros Hinv. unfold logout.
  destruct (negb (route_conn e)); [exact Hinv |].
  destruct (header_token req) as [exn | [tok |]]; try exact Hinv.
  simpl. apply filter_single, Hinv.
Qed.

Lemma login_single (e : env) (req : request) (w : world) :
  single_token_per_user (api_tokens w) ->
  single_token_per_user (api_tokens (snd (login e req w))).
Proof.
  intros Hinv. destruct (login e req w) as [r w'] eqn:Hlogin.
  destruct (login_cases e req w r w' Hlogin)
    as [[-> _] | (uid & name & _ & _ & ->)]; simpl; [exact Hinv |].
  apply reissued_single, Hinv.
Qed.

Lemma dispatch_single (a : app) (rt : route) (e : env) (req : request)
  (w : world) :
  single_token_per_user (api_tokens w) ->
  single_token_per_user (api_tokens (snd (dispatch a rt e req w))).
Proof.
  intros Hinv.
  assert (Hguard : forall f : view,
             (forall uid, single_token_per_user (api_tokens (snd (f uid e req w)))) ->
             single_token_per_user (api_tokens (snd (token_required f e req w)))).
  { intros f Hf. destruct (token_required_world f e req w) as [-> | [uid ->]];
      [exact Hinv | apply Hf]. }
  destruct rt; simpl.
  - unfold respond. pose proof (register_api_tokens e req w) as H.
    destruct (register e req w); simpl in *. now rewrite H.
  - unfold respond. pose proof (login_single e req w Hinv) as H.
    destruct (login e req w); exact H.
  - apply Hguard. intros uid. apply logout_single, Hinv.
  - destruct a; apply Hguard; intros uid.
    + now rewrite create_incident_postresql_api_tokens.
    + now rewrite create_incident_postgresql_api_tokens.
  - apply Hguard. intros uid. now rewrite update_incident_api_tokens.
  - apply Hguard. intros uid. now rewrite delete_incident_api_tokens.
Qed.

Lemma reachable_single (a : app) (w0 w : world) :
  single_token_per_user (api_tokens w0) -> reachable a w0 w ->
  single_token_per_user (api_tokens w).
Proof.
  intros Hinv Hreach. induction Hreach as [| w rt e req _ IH];
    [exact Hinv | apply dispatch_single, IH].
Qed.

End Routing.

Section SingleToken.
Context {L : Library}.

(** C1.  When a user logs in successfully twice in a row and the second
    login draws a token different from the first (uuid4 does not repeat),
    the second login deletes every token row of the user and inserts
    exactly one new row, so that the user holds exactly that row; the
    token of the first login is no longer in the table and every request
    presenting it is refused by the guard without running the view.  Over
    any sequence of requests, a token table with at most one row per user
    keeps at most one row per user. *)
Theorem second_login_revokes_first (e1 e2 : env) (req1 req2 : request)
  (w0 w1 w2 : world) (t1 t2 uid name1 name2 : string) :
  login e1 req1 w0 = (login_successful t1 uid name1, w1) ->
  login e2 req2 w1 = (login_successful t2 uid name2, w2) ->
  t2 <> t1 ->
  api_tokens w2 = reissued uid t2 (now e2) (api_tokens w1)
  /\ tokens_of uid (api_tokens w2)
     = [{| ApiTokens.token := t2; ApiTokens.user_id := uid;
           ApiTokens.created_at := now e2 |}]
  /\ select_token t1 (api_tokens w2) = None
  /\ (forall (e3 : env) (req3 : request),
        header_token req3 = inr (Some t1) ->
        exists r3, (status_code r3 = 401 \/ status_code r3 = 500) /\
                   forall f, token_required f e3 req3 w2 = (Responded r3, w2))
  /\ (forall (a : app) (w : world),
        single_token_per_user (api_tokens w0) -> reachable a w0 w ->
        single_token_per_user (api_tokens w)).
Proof.
  intros H1 H2 Hfresh.
  destruct (login_cases _ _ _ _ _ H1)
    as [[_ Hbad] | (uid1 & n1 & Hr1 & Hpk1 & Hw1)]; [now elim Hbad |].
  destruct (login_cases _ _ _ _ _ H2)
    as [[_ Hbad] | (uid2 & n2 & Hr2 & Hpk2 & Hw2)]; [now elim Hbad |].
  unfold login_successful, jsonify in Hr1, Hr2.
  injection Hr1 as Ht1 Hu1 _. injection Hr2 as Ht2 Hu2 _.
  subst uid1 uid2. rewrite <- Ht1 in *. rewrite <- Ht2 in *. clear Ht1 Ht2.
  assert (Htab : api_tokens w2 = reissued uid t2 (now e2) (api_tokens w1))
    by (rewrite Hw2; reflexivity).
  assert (Hgone : select_token t1 (api_tokens w2) = None).
  { rewrite Htab, Hw1. simpl. unfold select_token, reissued.
    rewrite find_app_split, filter_app. simpl.
    rewrite String.eqb_refl. simpl. rewrite app_nil_r.
    rewrite (find_filter_None _ _ _ Hpk1). simpl.
    destruct (String.eqb_spec t2 t1); [contradiction | reflexivity]. }
  split; [exact Htab |].
  split; [rewrite Htab; apply tokens_of_reissued_same |].
  split; [exact Hgone |].
  split.
  - intros e3 req3 Hh.
    exact (token_required_unknown_token logout e3 req3 w2 t1 Hh Hgone).
  - intros a w. apply reachable_single.
Qed.

End SingleToken.

Lemma second_login_revokes_first_witness :
  select_token "one-a"
    (api_tokens
       (snd (login (L := plain_library) (seeded "two-" 2000)
               (credentials "alice" "pw1")
               (snd (login (L := plain_library) (seeded "one-" 1000)
                       (credentials "alice" "pw1") small_world)))))
  = None.
Proof.
  assert (Hfresh : "two-a" <> "one-a") by discriminate.
  apply (second_login_revokes_first (L := plain_library)
           (seeded "one-" 1000) (seeded "two-" 2000)
           (credentials "alice" "pw1") (credentials "alice" "pw1")
           small_world _ _ "one-a" "two-a" "u-alice" "alice" "alice"
           eq_refl eq_refl Hfresh).
Defined.

(** ** C3 and C4: deleting and updating an incident *)

Lemma select_incident_deleted (id : string) (rows : list Incidents.row) :
  select_incident id (filter (not_this id) rows) = None.
Proof.
  unfold select_incident, not_this.
  induction rows as [| a rows IH]; simpl; [reflexivity |].
  destruct (String.eqb (Incidents.incident_id a) id) eqn:Ha; simpl;
    [| rewrite Ha]; exact IH.
Qed.

Lemma select_incident_kept (id other : string) (rows : list Incidents.row) :
  other <> id ->
  select_incident other (filter (not_this id) rows) = select_incident other rows.
Proof.
  intros Hne. unfold select_incident, not_this.
  induction rows as [| a rows IH]; simpl; [reflexivity |].
  destruct (String.eqb_spec (Incidents.incident_id a) id) as [Ha | Ha]; simpl.
  - destruct (String.eqb_spec (Incidents.incident_id a) other) as [Hb | _];
      [congruence | exact IH].
  - destruct (String.eqb (Incidents.incident_id a) other); [reflexivity | exact IH].
Qed.

(** C3.  With a valid session of any user [uid], owner or not, and the
    database reachable: deleting an existing incident answers 200 and
    removes the record, and only that record, from the table; deleting an
    absent id answers 404 and changes nothing; the answer is 404 exactly
    when the id is absent.  The user id plays no part in the outcome. *)
Theorem delete_ignores_ownership (e : env) (req : request) (w : world)
  (uid id : string) :
  valid_session e req w uid -> route_conn e = true ->
  (forall row, select_incident id (incidents w) = Some row ->
     token_required (delete_incident id) e req w
     = (Responded incident_deleted,
        set_incidents w (filter (not_this id) (incidents w))))
  /\ select_incident id (filter (not_this id) (incidents w)) = None
  /\ (forall other, other <> id ->
        select_incident other (filter (not_this id) (incidents w))
        = select_incident other (incidents w))
  /\ (select_incident id (incidents w) = None ->
      token_required (delete_incident id) e req w
      = (Responded incident_not_found, w))
  /\ (forall r w', token_required (delete_incident id) e req w = (Responded r, w') ->
        (status_code r = 404 <-> select_incident id (incidents w) = None)).
Proof.
  intros Hs Hc. rewrite (token_required_valid _ _ _ _ _ Hs).
  unfold call, delete_incident. rewrite Hc. simpl.
  split; [| split; [| split; [| split]]].
  - intros row Hrow. rewrite Hrow. reflexivity.
  - apply select_incident_deleted.
  - intros other Hne. now apply select_incident_kept.
  - intros Hnone. rewrite Hnone. reflexivity.
  - intros r w'. destruct (select_incident id (incidents w)) as [row |];
      intros H; inversion H; subst; simpl; split; intros; try discriminate;
      reflexivity.
Qed.

(** Bob holds a valid session and deletes the incident that Alice owns. *)
Lemma delete_ignores_ownership_witness :
  token_required (delete_incident "i-1") (at_time 1000000)
    (bearer "t-bob" [] None) small_world
  = (Responded incident_deleted, set_incidents small_world []).
Proof.
  assert (Hs : valid_session (at_time 1000000) (bearer "t-bob" [] None)
                 small_world "u-bob").
  { exists "t-bob", bob_token.
    repeat split; try reflexivity. discriminate. }
  apply (proj1 (delete_ignores_ownership (at_time 1000000)
                  (bearer "t-bob" [] None) small_world "u-bob" "i-1"
                  Hs eq_refl) pothole eq_refl).
Defined.

Section Update.
Context {L : Library}.

(** C4.  With a valid session of [uid] and the database reachable:
    updating an existing incident whose owner is not [uid] answers 403 and
    leaves the whole world, the incident record included, as it was;
    updating an absent id answers 404, whoever asks, so existence is tested
    before ownership. *)
Theorem update_by_non_owner_forbidden (e : env) (req : request) (w : world)
  (uid id : string) :
  valid_session e req w uid -> route_conn e = true ->
  (forall row, select_incident id (incidents w) = Some row ->
     Incidents.user_id row <> uid ->
     token_required (update_incident id) e req w
     = (Responded update_forbidden, w))
  /\ (select_incident id (incidents w) = None ->
      token_required (update_incident id) e req w
      = (Responded incident_not_found, w)).
Proof.
  intros Hs Hc. rewrite (token_required_valid _ _ _ _ _ Hs).
  unfold call, update_incident. rewrite Hc. simpl. split.
  - intros row Hrow Hne. rewrite Hrow.
    destruct (String.eqb_spec (Incidents.user_id row) uid);
      [contradiction | reflexivity].
  - intros Hnone. rewrite Hnone. reflexivity.
Qed.

End Update.

(** Bob tries to retitle Alice's incident. *)
Lemma update_by_non_owner_forbidden_witness :
  token_required (update_incident (L := plain_library) "i-1") (at_time 1000000)
    (bearer "t-bob" [("title", "Mine now")] None) small_world
  = (Responded update_forbidden, small_world).
Proof.
  assert (Hs : valid_session (at_time 1000000)
                 (bearer "t-bob" [("title", "Mine now")] None)
                 small_world "u-bob").
  { exists "t-bob", bob_token.
    repeat split; try reflexivity. discriminate. }
  assert (Hne : Incidents.user_id pothole <> "u-bob") by discriminate.
  apply (proj1 (update_by_non_owner_forbidden (L := plain_library)
                  (at_time 1000000)
                  (bearer "t-bob" [("title", "Mine now")] None)
                  small_world "u-bob" "i-1" Hs eq_refl)
           pothole eq_refl Hne).
Defined.

(** ** C5 and C10: creating an incident without a required field *)

Lemma omitted_field_not_all_required (fm : list (string * string))
  (field : string) :
  In field required_fields -> dict_get fm field = None ->
  all_required fm = false.
Proof.
  intros Hin Hnone. unfold all_required.
  destruct (forallb _ required_fields) eqn:Hall; [| reflexivity].
  rewrite forallb_forall in Hall. specialize (Hall field Hin).
  rewrite Hnone in Hall. discriminate.
Qed.

Section Create.
Context {L : Library}.

Lemma create_postresql_rejects (uid : string) (e : env) (req : request)
  (w : world) :
  route_conn e = true -> all_required (form req) = false ->
  app_postresql.create_incident uid e req w = (fields_missing, w).
Proof.
  intros Hc Hall. unfold app_postresql.create_incident. rewrite Hc. simpl.
  unfold all_required in Hall. simpl in Hall.
  rewrite andb_true_r, !andb_assoc in Hall. rewrite Hall. reflexivity.
Qed.

Lemma create_postgresql_rejects (uid : string) (e : env) (req : request)
  (w : world) :
  route_conn e = true -> all_required (form req) = false ->
  exists r w',
    app_postgresql.create_incident uid e req w = (r, w') /\
    status_code r = 400 /\ users w' = users w /\
    api_tokens w' = api_tokens w /\ incidents w' = incidents w.
Proof.
  intros Hc Hall.
  unfold app_postgresql.create_incident, app_postgresql.create_incident_insert.
  rewrite Hc, Hall. simpl.
  destruct (files_image req) as [file |].
  - destruct (accepted file).
    + unfold save_upload. simpl. eexists _, _. repeat split.
    + destruct (negb (String.eqb (filename file) EmptyString)); eexists _, _; repeat split.
  - eexists _, _. repeat split.
Qed.

(** C5.  With a valid session and the database reachable, a create request
    that omits one of title, description, lat and long is answered 400 by
    both applications and the incident table is left as it was (in
    [app_postresql.py] the whole world is). *)
Theorem create_without_required_field (e : env) (req : request) (w : world)
  (uid field : string) :
  valid_session e req w uid -> route_conn e = true ->
  In field required_fields -> dict_get (form req) field = None ->
  token_required app_postresql.create_incident e req w
  = (Responded fields_missing, w)
  /\ exists r w',
       token_required app_postgresql.create_incident e req w = (Responded r, w')
       /\ status_code r = 400 /\ incidents w' = incidents w.
Proof.
  intros Hs Hc Hin Hnone.
  pose proof (omitted_field_not_all_required _ _ Hin Hnone) as Hall.
  rewrite !(token_required_valid _ _ _ _ _ Hs). unfold call. split.
  - rewrite (create_postresql_rejects uid e req w Hc Hall). reflexivity.
  - destruct (create_postgresql_rejects uid e req w Hc Hall)
      as (r & w' & Hrun & Hst & _ & _ & Hinc).
    exists r, w'. rewrite Hrun. repeat split; assumption.
Qed.

(** C10.  In [app_postgresql.py], with a valid session and the database
    reachable, a create request that carries an image with a non-empty
    name and an allowed extension but omits a required field is answered
    400 "Missing required fields"; no incident is created, yet the file
    has been written to the uploads directory, under the first uuid of the
    request followed by its sanitised name. *)
Theorem rejected_create_keeps_upload (e : env) (req : request) (w : world)
  (uid field : string) (file : FileStorage) :
  valid_session e req w uid -> route_conn e = true ->
  files_image req = Some file ->
  filename file <> EmptyString -> allowed_file (filename file) = true ->
  In field required_fields -> dict_get (form req) field = None ->
  token_required app_postgresql.create_incident e req w
  = (Responded
       (jsonify "Missing required fields"
          (required_received required_fields (form req)) 400),
     {| users := users w; api_tokens := api_tokens w; incidents := incidents w;
        uploads :=
          ("uploads/" ++ uuid4 e 0%nat ++ "_" ++ secure_filename (filename file),
           content file) :: uploads w |}).
Proof.
  intros Hs Hc Hfile Hname Hext Hin Hnone.
  pose proof (omitted_field_not_all_required _ _ Hin Hnone) as Hall.
  rewrite (token_required_valid _ _ _ _ _ Hs). unfold call.
  unfold app_postgresql.create_incident, app_postgresql.create_incident_insert.
  rewrite Hc, Hfile. simpl. unfold accepted. rewrite Hext.
  destruct (String.eqb_spec (filename file) EmptyString); [contradiction |].
  simpl. rewrite Hall. reflexivity.
Qed.

End Create.

(** Alice posts a title only. *)
Lemma create_without_required_field_witness :
  token_required (app_postresql.create_incident (L := plain_library))
    (at_time 1000000) (bearer "t-alice" [("title", "Flood")] None) small_world
  = (Responded fields_missing, small_world).
Proof.
  assert (Hs : valid_session (at_time 1000000)
                 (bearer "t-alice" [("title", "Flood")] None)
                 small_world "u-alice").
  { exists "t-alice", alice_token.
    repeat split; try reflexivity. discriminate. }
  assert (Hin : In "lat" required_fields) by (simpl; tauto).
  apply (proj1 (create_without_required_field (L := plain_library)
                  (at_time 1000000)
                  (bearer "t-alice" [("title", "Flood")] None)
                  small_world "u-alice" "lat" Hs eq_refl Hin eq_refl)).
Defined.

(** Alice posts a title and a photo: the photo stays, no incident appears. *)
Lemma rejected_create_keeps_upload_witness :
  token_required (app_postgresql.create_incident (L := plain_library))
    (at_time 1000000)
    (bearer "t-alice" [("title", "Flood")] (Some photo)) small_world
  = (Responded
       (jsonify "Missing required fields"
          (required_received required_fields [("title", "Flood")]) 400),
     set_uploads small_world [("uploads/uuid-a_Hole.PNG", "bytes")]).
Proof.
  assert (Hs : valid_session (at_time 1000000)
                 (bearer "t-alice" [("title", "Flood")] (Some photo))
                 small_world "u-alice").
  { exists "t-alice", alice_token.
    repeat split; try reflexivity. discriminate. }
  assert (Hin : In "lat" required_fields) by (simpl; tauto).
  assert (Hname : filename photo <> EmptyString) by discriminate.
  exact (rejected_create_keeps_upload (L := plain_library)
           (at_time 1000000)
           (bearer "t-alice" [("title", "Flood")] (Some photo))
           small_world "u-alice" "lat" photo
           Hs eq_refl eq_refl Hname eq_refl Hin eq_refl).
Defined.

(** ** C7 and C8: registering a taken name, failing to log in *)

(** C7, counterexample.  Alice is registered; registering "alice" again
    with the empty password is answered 400, not 409: the test that both
    fields are filled in comes before the look-up of the name. *)
Lemma conflict_whatever_password_fails :
  ~ conflict_whatever_password (L := plain_library).
Proof.
  intros claim.
  assert (Hknown : select_user "alice" (users small_world) <> None)
    by discriminate.
  specialize (claim (at_time 0) (credentials "alice" EmptyString) small_world
                [("username", JString "alice"); ("password", JString EmptyString)]
                "alice" (JString EmptyString)
                eq_refl eq_refl eq_refl eq_refl Hknown).
  vm_compute in claim. discriminate claim.
Qed.

Section Credentials.
Context {L : Library}.

(** C7, amended.  With the database reachable, registering a non-empty
    username that is already in the user table is answered 409 when the
    password is a value that Python takes for true (a non-empty string,
    and also a non-zero number, [true], a non-empty list or object), and
    400 when it is not (the empty string, a password that is absent or
    [null], zero, [false], an empty list or object).  In every case the
    world, and the user table with it, stays as it was. *)
Theorem register_taken_username (e : env) (req : request) (w : world)
  (data : list (string * json_value)) (name : string) :
  route_conn e = true -> json req = Some data ->
  json_get data "username" = Some (JString name) -> name <> EmptyString ->
  select_user name (users w) <> None ->
  (json_truthy (json_get data "password") = true ->
   register e req w = (user_exists, w))
  /\ (json_truthy (json_get data "password") = false ->
      register e req w = (credentials_required, w))
  /\ snd (register e req w) = w.
Proof.
  intros Hc Hj Hname Hne Hknown. unfold register. rewrite Hc, Hj, Hname. simpl.
  destruct (String.eqb_spec name EmptyString); [contradiction |]. simpl.
  destruct (select_user name (users w)) as [u |]; [| now elim Hknown].
  destruct (json_truthy (json_get data "password")); simpl;
    repeat split; intros H; try discriminate H; reflexivity.
Qed.

(** What [login] does achieve.  Take two login attempts that reach the
    credential check with a password that the library can check: one names
    a user that is not in the table, the other names a user of the table
    with a password that the stored hash rejects.  Both are answered with
    the same status 401 and the same body, "Invalid username or
    password.", and neither changes the world. *)
Lemma login_refusals_coincide (e1 e2 : env) (req1 req2 : request)
  (w1 w2 : world) (data1 data2 : list (string * json_value))
  (name1 name2 : string) (password1 password2 : json_value)
  (user_data : Users.row) :
  route_conn e1 = true -> json req1 = Some data1 ->
  json_get data1 "username" = Some (JString name1) -> name1 <> EmptyString ->
  json_get data1 "password" = Some password1 ->
  json_truthy (Some password1) = true ->
  route_conn e2 = true -> json req2 = Some data2 ->
  json_get data2 "username" = Some (JString name2) -> name2 <> EmptyString ->
  json_get data2 "password" = Some password2 ->
  json_truthy (Some password2) = true ->
  select_user name1 (users w1) = None ->
  select_user name2 (users w2) = Some user_data ->
  check_password_hash (Users.password_hash user_data) password2 = Some false ->
  login e1 req1 w1 = (login_refused, w1)
  /\ login e2 req2 w2 = (login_refused, w2).
Proof.
  intros Hc1 Hj1 Hn1 Hne1 Hp1 Hpe1 Hc2 Hj2 Hn2 Hne2 Hp2 Hpe2 Hunknown Hknown Hwrong.
  split.
  - unfold login. rewrite Hc1, Hj1, Hn1, Hp1, Hpe1. simpl.
    destruct (String.eqb_spec name1 EmptyString); [contradiction |].
    simpl. rewrite Hunknown. reflexivity.
  - unfold login. rewrite Hc2, Hj2, Hn2, Hp2, Hpe2. simpl.
    destruct (String.eqb_spec name2 EmptyString); [contradiction |].
    simpl. rewrite Hknown, Hwrong. reflexivity.
Qed.

(** C8 (code defect).  The two causes of a failed login are not answered
    alike when the password is one that [check_password_hash] raises on (a
    JSON value that is not a string, such as the number 1, or a string that
    cannot be encoded).  Take two attempts with that same password against
    the same world, the database reachable: the one that names an unknown
    user is answered 401 "Invalid username or password." before the hash
    is looked at, the one that names a user of the table runs into the
    exception and is answered 500 "An error occurred during login.".  The
    two responses differ in status and body, so they tell whether the
    username exists. *)
Theorem login_error_reveals_known_username (e1 e2 : env) (req1 req2 : request)
  (w : world) (data1 data2 : list (string * json_value))
  (name1 name2 : string) (password : json_value) (user_data : Users.row) :
  route_conn e1 = true -> json req1 = Some data1 ->
  json_get data1 "username" = Some (JString name1) -> name1 <> EmptyString ->
  json_get data1 "password" = Some password ->
  route_conn e2 = true -> json req2 = Some data2 ->
  json_get data2 "username" = Some (JString name2) -> name2 <> EmptyString ->
  json_get data2 "password" = Some password ->
  json_truthy (Some password) = true ->
  select_user name1 (users w) = None ->
  select_user name2 (users w) = Some user_data ->
  check_password_hash (Users.password_hash user_data) password = None ->
  login e1 req1 w = (login_refused, w)
  /\ login e2 req2 w
     = (jsonify "An error occurred during login." no_payload 500, w)
  /\ fst (login e1 req1 w) <> fst (login e2 req2 w).
Proof.
  intros Hc1 Hj1 Hn1 Hne1 Hp1 Hc2 Hj2 Hn2 Hne2 Hp2 Htruthy Hunknown Hknown Hraise.
  assert (H1 : login e1 req1 w = (login_refused, w)).
  { unfold login. rewrite Hc1, Hj1, Hn1, Hp1, Htruthy. simpl.
    destruct (String.eqb_spec name1 EmptyString); [contradiction |].
    simpl. rewrite Hunknown. reflexivity. }
  assert (H2 : login e2 req2 w
               = (jsonify "An error occurred during login." no_payload 500, w)).
  { unfold login. rewrite Hc2, Hj2, Hn2, Hp2, Htruthy. simpl.
    destruct (String.eqb_spec name2 EmptyString); [contradiction |].
    simpl. rewrite Hknown, Hraise. reflexivity. }
  rewrite H1, H2. repeat split. discriminate.
Qed.

End Credentials.

Lemma register_taken_username_witness :
  register (L := plain_library) (at_time 0) (credentials "alice" "other")
    small_world
  = (user_exists, small_world).
Proof.
  assert (Hname : "alice" <> EmptyString) by discriminate.
  assert (Hknown : select_user "alice" (users small_world) <> None)
    by discriminate.
  apply (proj1 (register_taken_username (L := plain_library) (at_time 0)
                  (credentials "alice" "other") small_world
                  [("username", JString "alice"); ("password", JString "other")]
                  "alice"
                  eq_refl eq_refl eq_refl Hname Hknown)
           eq_refl).
Defined.

(** The password is the number 1; "carol" is unknown and "alice" is known:
    401 for the one, 500 for the other. *)
Lemma login_error_reveals_known_username_witness :
  fst (login (L := plain_library) (at_time 0) (posted "carol" (JNumber 1 0))
         small_world)
  <> fst (login (L := plain_library) (at_time 0) (posted "alice" (JNumber 1 0))
            small_world).
Proof.
  assert (Hcarol : "carol" <> EmptyString) by discriminate.
  assert (Halice : "alice" <> EmptyString) by discriminate.
  apply (login_error_reveals_known_username (L := plain_library)
           (at_time 0) (at_time 0)
           (posted "carol" (JNumber 1 0)) (posted "alice" (JNumber 1 0))
           small_world
           [("username", JString "carol"); ("password", JNumber 1 0)]
           [("username", JString "alice"); ("password", JNumber 1 0)]
           "carol" "alice" (JNumber 1 0) alice
           eq_refl eq_refl eq_refl Hcarol eq_refl
           eq_refl eq_refl eq_refl Halice eq_refl
           eq_refl eq_refl eq_refl eq_refl).
Defined.

(** ** C6: what an update changes *)

Lemma select_incident_patched (id : string)
  (g : Incidents.row -> Incidents.row) (rows : list Incidents.row) :
  (forall r, Incidents.incident_id (g r) = Incidents.incident_id r) ->
  select_incident id (map (patch id g) rows)
  = option_map g (select_incident id rows).
Proof.
  intros Hid. unfold select_incident, patch.
  induction rows as [| a rows IH]; simpl; [reflexivity |].
  destruct (String.eqb (Incidents.incident_id a) id) eqn:Ha.
  - rewrite Hid, Ha. reflexivity.
  - rewrite Ha. exact IH.
Qed.


Section UpdateFrame.
Context {L : Library}.


End UpdateFrame.


Section UpdateClaim.
Context {L : Library}.


End UpdateClaim.


(** * Further properties *)

(** ** File names and headers *)

Lemma count_char_cons_0 (c a : ascii) (s : string) :
  count_char c (String a s) = 0%nat ->
  Ascii.eqb a c = false /\ count_char c s = 0%nat.
Proof.
  simpl. destruct (Ascii.eqb a c); [discriminate | auto].
Qed.

Lemma rsplit_dot_without_dot (s : string) : no_dot s -> rsplit_dot s = None.
Proof.
  unfold no_dot. induction s as [| a s IH]; [reflexivity |].
  intros H. apply count_char_cons_0 in H as [Ha Hs].
  simpl. rewrite (IH Hs), Ha. reflexivity.
Qed.

Lemma rsplit_dot_last (stem ext : string) :
  no_dot ext -> rsplit_dot (stem ++ String "."%char ext) = Some ext.
Proof.
  intros Hext. induction stem as [| a stem IH]; simpl.
  - rewrite (rsplit_dot_without_dot ext Hext). reflexivity.
  - rewrite IH. reflexivity.
Qed.

(** X1.  Only the text after the last dot of a file name counts, and it
    counts whatever its case: a name that ends in a dot followed by a
    dot-free extension is allowed exactly when the lower-cased extension is
    one of png, jpg, jpeg and gif, whatever comes before that dot. *)
Theorem allowed_file_last_extension (stem ext : string) :
  no_dot ext ->
  allowed_file (stem ++ "." ++ ext)
  = existsb (String.eqb (lower ext)) ALLOWED_EXTENSIONS.
Proof.
  intros Hext. unfold allowed_file. simpl.
  rewrite (rsplit_dot_last stem ext Hext). reflexivity.
Qed.

Lemma allowed_file_last_extension_witness :
  allowed_file ("holiday.exe" ++ "." ++ "JpEg") = true.
Proof.
  rewrite (allowed_file_last_extension "holiday.exe" "JpEg" eq_refl).
  reflexivity.
Defined.

(** X2.  A file name without a dot is never allowed, even when the name
    itself is one of the allowed extensions. *)
Theorem allowed_file_needs_a_dot (name : string) :
  no_dot name -> allowed_file name = false.
Proof.
  intros H. unfold allowed_file. rewrite (rsplit_dot_without_dot name H).
  reflexivity.
Qed.

Lemma allowed_file_needs_a_dot_witness : allowed_file "png" = false.
Proof. exact (allowed_file_needs_a_dot "png" eq_refl). Defined.

Lemma split_without_separator (c : ascii) (s : string) :
  count_char c s = 0%nat -> split c s = [s].
Proof.
  induction s as [| a s IH]; [reflexivity |].
  intros H. apply count_char_cons_0 in H as [Ha Hs].
  simpl. rewrite Ha, (IH Hs). reflexivity.
Qed.

Lemma split_at_first_separator (c : ascii) (s t : string) :
  count_char c s = 0%nat -> split c (s ++ String c t) = s :: split c t.
Proof.
  induction s as [| a s IH]; simpl.
  - intros _. rewrite Ascii.eqb_refl. reflexivity.
  - intros H. destruct (Ascii.eqb a c) eqn:Ha; [discriminate |].
    rewrite (IH H). reflexivity.
Qed.

(** X3.  The guard reads the second space-separated piece of the
    Authorization header and never looks at the first: with any scheme
    word in place of "Bearer", and whatever follows the token after a
    further space, the token it extracts is the same. *)
Theorem header_token_ignores_scheme (scheme tok rest : string)
  (j : option (list (string * json_value))) (fm : list (string * string))
  (fi : option FileStorage) :
  no_space scheme -> no_space tok ->
  header_token {| Authorization := Some (scheme ++ " " ++ tok);
                  json := j; form := fm; files_image := fi |}
  = inr (Some tok)
  /\ header_token {| Authorization := Some (scheme ++ " " ++ tok ++ " " ++ rest);
                     json := j; form := fm; files_image := fi |}
     = inr (Some tok).
Proof.
  intros Hscheme Htok. unfold header_token. simpl. split.
  - rewrite (split_at_first_separator _ scheme tok Hscheme).
    rewrite (split_without_separator _ tok Htok). reflexivity.
  - rewrite (split_at_first_separator _ scheme _ Hscheme).
    rewrite (split_at_first_separator _ tok rest Htok). reflexivity.
Qed.

Lemma header_token_ignores_scheme_witness :
  header_token {| Authorization := Some ("Basic" ++ " " ++ "t-bob");
                  json := None; form := []; files_image := None |}
  = inr (Some "t-bob").
Proof.
  exact (proj1 (header_token_ignores_scheme "Basic" "t-bob" EmptyString
                  None [] None eq_refl eq_refl)).
Defined.

(** ** The guard, once more *)

Lemma truthy_true_inv (x : option string) :
  truthy x = true -> exists s, x = Some s /\ s <> EmptyString.
Proof.
  destruct x as [s |]; simpl; [| discriminate].
  destruct (String.eqb_spec s EmptyString); [discriminate |].
  intros _. now exists s.
Qed.

(** The cases of the guard. *)
Lemma guard_cases (f : view) (e : env) (req : request) (w : world) :
  (exists uid, valid_session e req w uid
               /\ token_required f e req w = call f uid e req w)
  \/ (exists o,
        (o = Unhandled IndexError
         \/ exists r, o = Responded r
                      /\ (status_code r = 401 \/ status_code r = 500))
        /\ forall g, token_required g e req w = (o, w)).
Proof.
  unfold token_required.
  destruct (header_token req) as [[] | tok] eqn:Hh.
  - right. exists (Unhandled IndexError). split; [left |]; reflexivity.
  - destruct (truthy tok) eqn:Htruthy; simpl.
    2:{ right. exists (Responded token_missing). split; [right |]; [| reflexivity].
        exists token_missing. split; [reflexivity | left; reflexivity]. }
    destruct (truthy_true_inv tok Htruthy) as (s & -> & Hs). simpl.
    destruct (guard_conn e) eqn:Hc; simpl.
    2:{ right.
        exists (Responded (jsonify "Database connection error." no_payload 500)).
        split; [right |]; [| reflexivity].
        eexists. split; [reflexivity | right; reflexivity]. }
    destruct (select_token s (api_tokens w)) as [row |] eqn:Hrow.
    2:{ right. exists (Responded token_invalid). split; [right |]; [| reflexivity].
        exists token_invalid. split; [reflexivity | left; reflexivity]. }
    destruct (_ >? _) eqn:Hage.
    + right. exists (Responded token_invalid). split; [right |]; [| reflexivity].
      exists token_invalid. split; [reflexivity | left; reflexivity].
    + left. exists (ApiTokens.user_id row). split; [| reflexivity].
      exists s, row. repeat split; assumption.
Qed.

(** X4.  The guard has three verdicts and no other: it runs the view with
    the user of a valid session carried by the request; or it answers 401
    or 500 itself; or it raises IndexError.  In the last two cases the
    world is untouched and the view plays no part in the answer. *)
Theorem guard_verdicts (f : view) (e : env) (req : request) (w : world) :
  (exists uid, valid_session e req w uid
               /\ token_required f e req w = call f uid e req w)
  \/ (exists o,
        (o = Unhandled IndexError
         \/ exists r, o = Responded r
                      /\ (status_code r = 401 \/ status_code r = 500))
        /\ forall g, token_required g e req w = (o, w)).
Proof. exact (guard_cases f e req w). Qed.

(** ** Sessions from login to logout *)

Lemma find_filter_Some {A : Type} (p q : A -> bool) (l : list A) (x : A) :
  find p l = Some x -> q x = true -> find p (filter q l) = Some x.
Proof.
  induction l as [| a l IH]; simpl; [discriminate |].
  destruct (p a) eqn:Hp.
  - intros H Hq. inversion H; subst a. rewrite Hq. simpl. now rewrite Hp.
  - intros H Hq. destruct (q a); simpl; [rewrite Hp |]; auto.
Qed.



Section Sessions.
Context {L : Library}.

(** X5.  The token that a successful login returns opens a session of the
    user who logged in: a request that presents it, at any time up to 24
    hours after the login, passes the guard, which runs the view with that
    user's id. *)
Theorem login_opens_session (e e2 : env) (req req2 : request) (w w' : world)
  (t uid name : string) (f : view) :
  login e req w = (login_successful t uid name, w') ->
  header_token req2 = inr (Some t) -> t <> EmptyString ->
  guard_conn e2 = true -> now e2 <= now e + timedelta_hours 24 ->
  valid_session e2 req2 w' uid
  /\ token_required f e2 req2 w' = call f uid e2 req2 w'.
Proof.
  intros Hlogin Hh Hne Hc Htime.
  destruct (login_cases _ _ _ _ _ Hlogin)
    as [[_ Hbad] | (uid' & name' & Hr & Hfresh & ->)]; [now elim Hbad |].
  unfold login_successful, jsonify in Hr. injection Hr as Ht Hu _.
  subst uid' t.
  assert (Hs : valid_session e2 req2
                 (set_api_tokens w
                    (reissued uid (uuid4 e 0%nat) (now e) (api_tokens w))) uid).
  { exists (uuid4 e 0%nat),
      {| ApiTokens.token := uuid4 e 0%nat; ApiTokens.user_id := uid;
         ApiTokens.created_at := now e |}.
    repeat split; try assumption.
    - simpl. unfold select_token, reissued. rewrite find_app_split.
      unfold select_token in Hfresh. rewrite Hfresh. simpl.
      rewrite String.eqb_refl. reflexivity.
    - unfold expired. simpl.
      apply replace_microsecond_0_mono in Htime.
      rewrite replace_microsecond_0_shift in Htime.
      destruct (Z.gtb_spec (replace_microsecond_0 (now e2)
                            - replace_microsecond_0 (now e))
                  (timedelta_hours 24)); [lia | reflexivity]. }
  split; [exact Hs | apply token_required_valid, Hs].
Qed.

(** X6.  A login by one user leaves the sessions of all others as they
    are: a session of another user that was valid before the login is
    valid after it. *)
Theorem login_keeps_other_sessions (e e2 : env) (req req2 : request)
  (w w' : world) (t uid name other : string) :
  login e req w = (login_successful t uid name, w') ->
  valid_session e2 req2 w other -> other <> uid ->
  valid_session e2 req2 w' other.
Proof.
  intros Hlogin (tok & row & Hh & Hne & Hc & Hrow & Hu & Hage) Hother.
  destruct (login_cases _ _ _ _ _ Hlogin)
    as [[_ Hbad] | (uid' & name' & Hr & _ & ->)]; [now elim Hbad |].
  unfold login_successful, jsonify in Hr. injection Hr as _ Hu' _. subst uid'.
  exists tok, row. repeat split; try assumption.
  simpl. unfold select_token, reissued. rewrite find_app_split.
  unfold select_token in Hrow.
  rewrite (find_filter_Some _ _ _ _ Hrow); [reflexivity |].
  rewrite Hu. destruct (String.eqb_spec other uid); [contradiction | reflexivity].
Qed.


End Sessions.

Lemma login_opens_session_witness :
  token_required logout (at_time 5000) (bearer "one-a" [] None)
    (snd (login (L := plain_library) (seeded "one-" 1000)
            (credentials "alice" "pw1") small_world))
  = call logout "u-alice" (at_time 5000) (bearer "one-a" [] None)
      (snd (login (L := plain_library) (seeded "one-" 1000)
              (credentials "alice" "pw1") small_world)).
Proof.
  assert (Hne : "one-a" <> EmptyString) by discriminate.
  assert (Htime : now (at_time 5000)
                  <= now (seeded "one-" 1000) + timedelta_hours 24)
    by (vm_compute; discriminate).
  exact (proj2 (login_opens_session (L := plain_library)
                  (seeded "one-" 1000) (at_time 5000)
                  (credentials "alice" "pw1") (bearer "one-a" [] None)
                  small_world _ "one-a" "u-alice" "alice" logout
                  eq_refl eq_refl Hne eq_refl Htime)).
Defined.

Lemma bob_session :
  valid_session (at_time 1000000) (bearer "t-bob" [] None) small_world "u-bob".
Proof.
  exists "t-bob", bob_token. repeat split; try reflexivity. discriminate.
Defined.

Lemma alice_session :
  valid_session (at_time 1000000) (bearer "t-alice" [] None) small_world "u-alice".
Proof.
  exists "t-alice", alice_token. repeat split; try reflexivity. discriminate.
Defined.

Lemma login_keeps_other_sessions_witness :
  valid_session (at_time 1000000) (bearer "t-bob" [] None)
    (snd (login (L := plain_library) (seeded "one-" 1000)
            (credentials "alice" "pw1") small_world))
    "u-bob".
Proof.
  assert (Hother : "u-bob" <> "u-alice") by discriminate.
  exact (login_keeps_other_sessions (L := plain_library)
           (seeded "one-" 1000) (at_time 1000000)
           (credentials "alice" "pw1") (bearer "t-bob" [] None)
           small_world _ "one-a" "u-alice" "alice" "u-bob"
           eq_refl bob_session Hother).
Defined.



(** ** Logging out *)

Lemma unique_find (tok : string) (rows : list ApiTokens.row)
  (row r : ApiTokens.row) :
  unique_tokens rows -> select_token tok rows = Some row ->
  In r rows -> ApiTokens.token r = tok -> r = row.
Proof.
  unfold unique_tokens, select_token.
  induction rows as [| a rows IH]; simpl; [intros _ H; discriminate |].
  intros Hnd Hfind Hin Htok. inversion Hnd as [| x l Hnotin Hnd']; subst.
  destruct (String.eqb_spec (ApiTokens.token a) (ApiTokens.token r)) as [Ha | Ha].
  - inversion Hfind; subst a. destruct Hin as [-> | Hin]; [reflexivity |].
    elim Hnotin. rewrite Ha. now apply in_map.
  - destruct Hin as [-> | Hin]; [now elim Ha | now apply IH].
Qed.

Lemma unique_tokens_filter (q : ApiTokens.row -> bool)
  (rows : list ApiTokens.row) :
  unique_tokens rows -> unique_tokens (filter q rows).
Proof.
  unfold unique_tokens. induction rows as [| a rows IH]; simpl; [auto |].
  intros Hnd. inversion Hnd as [| x l Hnotin Hnd']; subst.
  destruct (q a); simpl; [| now apply IH].
  constructor; [| now apply IH].
  intros Hin. apply Hnotin. apply in_map_iff in Hin as (r & Hr & Hin).
  apply filter_In in Hin as [Hin _]. rewrite <- Hr. now apply in_map.
Qed.

(** X8.  Logging out ends the session it is asked under and no other.
    With a valid session, the database reachable and token keys unique in
    the table, logout answers 200 and leaves users and incidents alone;
    afterwards the token is gone, so the same request is refused by the
    guard for every view, while every valid session of another user stays
    valid. *)
Theorem logout_ends_session (e : env) (req : request) (w : world)
  (uid : string) :
  valid_session e req w uid -> route_conn e = true ->
  unique_tokens (api_tokens w) ->
  exists w',
    token_required logout e req w = (Responded logout_successful, w')
    /\ users w' = users w /\ incidents w' = incidents w
    /\ (forall e2, exists r,
          (status_code r = 401 \/ status_code r = 500)
          /\ forall f, token_required f e2 req w' = (Responded r, w'))
    /\ (forall e2 req2 other,
          other <> uid -> valid_session e2 req2 w other ->
          valid_session e2 req2 w' other).
Proof.
  intros Hs Hc Huniq. rewrite (token_required_valid _ _ _ _ _ Hs).
  destruct Hs as (tok & row & Hh & Hne & Hgc & Hrow & Hu & Hage).
  unfold call, logout. rewrite Hc, Hh. simpl.
  eexists. split; [reflexivity |]. split; [reflexivity |].
  split; [reflexivity |]. split.
  - intros e2. apply (token_required_unknown_token logout e2 req _ tok Hh).
    simpl. unfold select_token.
    destruct (find _ (filter _ (api_tokens w))) as [r |] eqn:Hfind;
      [| reflexivity].
    apply find_some in Hfind as [Hin Htok].
    apply filter_In in Hin as [Hin Hkeep].
    apply String.eqb_eq in Htok.
    rewrite (unique_find tok _ row r Huniq Hrow Hin Htok) in Hkeep.
    rewrite Hu, String.eqb_refl in Hkeep. simpl in Hkeep.
    unfold select_token in Hrow. apply find_some in Hrow as [_ Hrt].
    rewrite Hrt in Hkeep. discriminate.
  - intros e2 req2 other Hother (tok2 & row2 & Hh2 & Hne2 & Hgc2 & Hrow2 & Hu2 & Hage2).
    exists tok2, row2. repeat split; try assumption.
    simpl. unfold select_token in *.
    apply (find_filter_Some _ _ _ _ Hrow2).
    rewrite Hu2. destruct (String.eqb_spec other uid); [contradiction | reflexivity].
Qed.

Lemma small_world_unique_tokens : unique_tokens (api_tokens small_world).
Proof.
  unfold unique_tokens. simpl.
  repeat constructor; simpl; intuition discriminate.
Defined.

Lemma logout_ends_session_witness :
  exists w',
    token_required logout (at_time 1000000) (bearer "t-bob" [] None) small_world
    = (Responded logout_successful, w')
    /\ select_token "t-alice" (api_tokens w') = Some alice_token.
Proof.
  destruct (logout_ends_session (at_time 1000000) (bearer "t-bob" [] None)
              small_world "u-bob" bob_session eq_refl
              small_world_unique_tokens)
    as (w' & Hrun & _).
  exists w'. split; [exact Hrun |].
  vm_compute in Hrun. injection Hrun as <-. reflexivity.
Defined.

(** ** What the routes leave alone *)

Ltac cases_of :=
  repeat (simpl;
          match goal with
          | |- context [match ?x with _ => _ end] => destruct x
          end);
  simpl; auto.

(** A relation between the world before and after a request that holds
    when nothing happens and for every view holds for every route. *)
Lemma guarded_related (R : world -> world -> Prop) (f : view) (e : env)
  (req : request) (w : world) :
  R w w -> (forall uid, R w (snd (f uid e req w))) ->
  R w (snd (token_required f e req w)).
Proof.
  intros Hrefl Hf.
  destruct (token_required_world f e req w) as [-> | [uid ->]]; auto.
Qed.

Section Frames.
Context {L : Library}.

Lemma dispatch_related (R : world -> world -> Prop) (a : app) (rt : route)
  (e : env) (req : request) (w : world) :
  R w w ->
  R w (snd (register e req w)) ->
  R w (snd (login e req w)) ->
  (forall uid, R w (snd (logout uid e req w))) ->
  (forall uid, R w (snd (app_postresql.create_incident uid e req w))) ->
  (forall uid, R w (snd (app_postgresql.create_incident uid e req w))) ->
  (forall id uid, R w (snd (update_incident id uid e req w))) ->
  (forall id uid, R w (snd (delete_incident id uid e req w))) ->
  R w (snd (dispatch a rt e req w)).
Proof.
  intros Hrefl Hreg Hlogin Hlogout Hc1 Hc2 Hupd Hdel.
  destruct rt; simpl.
  - unfold respond. destruct (register e req w); exact Hreg.
  - unfold respond. destruct (login e req w); exact Hlogin.
  - apply guarded_related; assumption.
  - destruct a; apply guarded_related; assumption.
  - apply guarded_related; [assumption | apply Hupd].
  - apply guarded_related; [assumption | apply Hdel].
Qed.

(** *** Users *)

Lemma login_frame (e : env) (req : request) (w : world) :
  users (snd (login e req w)) = users w
  /\ incidents (snd (login e req w)) = incidents w
  /\ uploads (snd (login e req w)) = uploads w.
Proof.
  destruct (login e req w) as [r w'] eqn:Hlogin.
  destruct (login_cases e req w r w' Hlogin)
    as [[-> _] | (uid & name & _ & _ & ->)]; simpl; auto.
Qed.

Lemma logout_frame (uid : string) (e : env) (req : request) (w : world) :
  users (snd (logout uid e req w)) = users w
  /\ incidents (snd (logout uid e req w)) = incidents w
  /\ uploads (snd (logout uid e req w)) = uploads w.
Proof. unfold logout. cases_of. Qed.

Lemma create_postresql_users (uid : string) (e : env) (req : request)
  (w : world) :
  users (snd (app_postresql.create_incident uid e req w)) = users w.
Proof.
  unfold app_postresql.create_incident, app_postresql.create_incident_insert,
    insert_incident, save_upload.
  cases_of.
Qed.

Lemma create_postgresql_users (uid : string) (e : env) (req : request)
  (w : world) :
  users (snd (app_postgresql.create_incident uid e req w)) = users w.
Proof.
  unfold app_postgresql.create_incident, app_postgresql.create_incident_insert,
    insert_incident, save_upload.
  cases_of.
Qed.

Lemma update_users (id uid : string) (e : env) (req : request) (w : world) :
  users (snd (update_incident id uid e req w)) = users w.
Proof.
  unfold update_incident, save_upload.
  destruct (files_image req) as [file |]; [destruct (accepted file) |];
    cases_of.
Qed.

Lemma delete_frame (id uid : string) (e : env) (req : request) (w : world) :
  users (snd (delete_incident id uid e req w)) = users w
  /\ api_tokens (snd (delete_incident id uid e req w)) = api_tokens w
  /\ uploads (snd (delete_incident id uid e req w)) = uploads w.
Proof. unfold delete_incident. cases_of. Qed.

Lemma register_users_step (e : env) (req : request) (w : world) :
  users_step w (snd (register e req w)).
Proof.
  unfold users_step, register.
  destruct (negb (route_conn e)); [now left |].
  destruct (json req) as [data |]; [| now left].
  destruct (_ || _); [now left |].
  destruct (json_get data "username") as [[| b | d x | name | items | members] |];
    try now left.
  destruct (select_user name (users w)) eqn:Hnone; [now left |].
  destruct (generate_password_hash _ _) as [hashed_password |]; [| now left].
  unfold insert_user. destruct (_ || _); [now left |].
  right. eexists. split; [reflexivity | exact Hnone].
Qed.

Lemma dispatch_users_step (a : app) (rt : route) (e : env) (req : request)
  (w : world) :
  users_step w (snd (dispatch a rt e req w)).
Proof.
  apply dispatch_related.
  - now left.
  - apply register_users_step.
  - left. apply login_frame.
  - intros uid. left. apply logout_frame.
  - intros uid. left. apply create_postresql_users.
  - intros uid. left. apply create_postgresql_users.
  - intros id uid. left. apply update_users.
  - intros id uid. left. apply delete_frame.
Qed.

(** X9.  No sequence of requests removes or alters a user: the user table
    of every reachable world is the initial table followed by the users
    registered since. *)
Theorem users_are_never_removed (a : app) (w0 w : world) :
  reachable a w0 w -> exists added, users w = (users w0 ++ added)%list.
Proof.
  intros Hreach. induction Hreach as [| w rt e req _ [added IH]].
  - exists []. now rewrite app_nil_r.
  - destruct (dispatch_users_step a rt e req w) as [-> | (r & -> & _)].
    + now exists added.
    + exists (added ++ [r])%list. now rewrite IH, app_assoc.
Qed.

Lemma find_None_not_in_map (name : string) (rows : list Users.row) :
  select_user name rows = None -> ~ In name (map Users.username rows).
Proof.
  unfold select_user. induction rows as [| a rows IH]; simpl; [tauto |].
  destruct (String.eqb_spec (Users.username a) name); [discriminate |].
  intros H [Heq | Hin]; [contradiction | exact (IH H Hin)].
Qed.

Lemma NoDup_snoc {A : Type} (l : list A) (x : A) :
  NoDup l -> ~ In x l -> NoDup (l ++ [x]).
Proof.
  intros Hnd Hx. induction Hnd as [| y l Hy Hnd IH]; simpl.
  - constructor; [tauto | constructor].
  - constructor.
    + rewrite in_app_iff. simpl. intros [H | [H | []]]; [tauto |].
      apply Hx. left. symmetry. exact H.
    + apply IH. intros H. apply Hx. now right.
Qed.

(** X10.  User names stay unique: [register] looks the name up before it
    inserts, so a table without two users of the same name never gets
    two, whatever requests arrive. *)
Theorem usernames_stay_unique (a : app) (w0 w : world) :
  unique_usernames (users w0) -> reachable a w0 w ->
  unique_usernames (users w).
Proof.
  intros Hinit Hreach. induction Hreach as [| w rt e req _ IH]; [exact Hinit |].
  destruct (dispatch_users_step a rt e req w) as [-> | (r & -> & Hfree)];
    [exact IH |].
  unfold unique_usernames in *. rewrite map_app. simpl.
  apply NoDup_snoc; [exact IH | now apply find_None_not_in_map].
Qed.

End Frames.

(** ** Tokens and uploads over time *)

Lemma select_token_None_not_in (tok : string) (rows : list ApiTokens.row) :
  select_token tok rows = None -> ~ In tok (map ApiTokens.token rows).
Proof.
  unfold select_token. induction rows as [| a rows IH]; simpl; [tauto |].
  destruct (String.eqb_spec (ApiTokens.token a) tok); [discriminate |].
  intros H [Heq | Hin]; [contradiction | exact (IH H Hin)].
Qed.

Lemma reissued_unique (uid tok : string) (t : Z) (rows : list ApiTokens.row) :
  unique_tokens rows ->
  select_token tok
    (filter (fun r => negb (String.eqb (ApiTokens.user_id r) uid)) rows) = None ->
  unique_tokens (reissued uid tok t rows).
Proof.
  intros Huniq Hfresh. unfold unique_tokens, reissued. rewrite map_app. simpl.
  apply NoDup_snoc.
  - apply (unique_tokens_filter _ _ Huniq).
  - now apply select_token_None_not_in.
Qed.

Section Invariants.
Context {L : Library}.

(** X11.  Token keys stay unique: [login] inserts a token only when no
    remaining row carries it, and nothing else adds rows, so a token table
    without two rows of the same token never gets two. *)
Theorem token_keys_stay_unique (a : app) (w0 w : world) :
  unique_tokens (api_tokens w0) -> reachable a w0 w ->
  unique_tokens (api_tokens w).
Proof.
  intros Hinit Hreach. induction Hreach as [| w rt e req _ IH]; [exact Hinit |].
  apply (dispatch_related
           (fun w w' => unique_tokens (api_tokens w) ->
                        unique_tokens (api_tokens w'))); try exact IH.
  - auto.
  - now rewrite register_api_tokens.
  - destruct (login e req w) as [r w'] eqn:Hlogin.
    destruct (login_cases e req w r w' Hlogin)
      as [[-> _] | (uid & name & _ & Hfresh & ->)]; simpl; [auto |].
    intros Huniq. now apply reissued_unique.
  - intros uid Huniq. unfold logout.
    destruct (negb (route_conn e)); [exact Huniq |].
    destruct (header_token req) as [exn | [tok |]]; try exact Huniq.
    simpl. now apply unique_tokens_filter.
  - intros uid. now rewrite create_incident_postresql_api_tokens.
  - intros uid. now rewrite create_incident_postgresql_api_tokens.
  - intros id uid. now rewrite update_incident_api_tokens.
  - intros id uid. now rewrite delete_incident_api_tokens.
Qed.

(** X12.  The validity window is fixed: no route other than login and
    logout writes the token table, so presenting a token, however often,
    never changes its issue time. *)
Theorem use_does_not_refresh_tokens (a : app) (rt : route) (e : env)
  (req : request) (w : world) :
  rt <> POST_login -> rt <> POST_logout ->
  api_tokens (snd (dispatch a rt e req w)) = api_tokens w.
Proof.
  intros Hlogin Hlogout.
  assert (Hguard : forall f : view,
             (forall uid, api_tokens (snd (f uid e req w)) = api_tokens w) ->
             api_tokens (snd (token_required f e req w)) = api_tokens w).
  { intros f Hf.
    apply (guarded_related (fun w w' => api_tokens w' = api_tokens w));
      [reflexivity | exact Hf]. }
  destruct rt; simpl; try contradiction.
  - unfold respond. pose proof (register_api_tokens e req w) as H.
    destruct (register e req w); exact H.
  - destruct a; apply Hguard; intros uid.
    + apply create_incident_postresql_api_tokens.
    + apply create_incident_postgresql_api_tokens.
  - apply Hguard. intros uid. apply update_incident_api_tokens.
  - apply Hguard. intros uid. apply delete_incident_api_tokens.
Qed.

Ltac grown :=
  cases_of; first [now exists [] | eexists [_]; reflexivity].

(** The upload directory after a request: the files of before, with new
    ones in front. *)
Lemma dispatch_uploads (a : app) (rt : route) (e : env) (req : request)
  (w : world) :
  exists added, uploads (snd (dispatch a rt e req w)) = (added ++ uploads w)%list.
Proof.
  apply (dispatch_related
           (fun w w' => exists added, uploads w' = (added ++ uploads w)%list)).
  - now exists [].
  - unfold register, insert_user. grown.
  - exists []. apply login_frame.
  - intros uid. exists []. apply logout_frame.
  - intros uid.
    unfold app_postresql.create_incident, app_postresql.create_incident_insert,
      insert_incident, save_upload.
    grown.
  - intros uid.
    unfold app_postgresql.create_incident, app_postgresql.create_incident_insert,
      insert_incident, save_upload.
    grown.
  - intros id uid. unfold update_incident, save_upload.
    destruct (files_image req) as [file |]; [destruct (accepted file) |]; grown.
  - intros id uid. exists []. apply delete_frame.
Qed.

(** X13.  No route deletes an uploaded file: the upload directory of every
    reachable world holds the writes it started with, with the writes made
    since in front (a later write shadows an earlier one only under the
    same path, which takes a repeated uuid).  In particular deleting an
    incident, or giving it another image, leaves the file of its former
    image on disk. *)
Theorem uploads_are_never_removed (a : app) (w0 w : world) :
  reachable a w0 w -> exists added, uploads w = (added ++ uploads w0)%list.
Proof.
  intros Hreach. induction Hreach as [| w rt e req _ [added IH]].
  - now exists [].
  - destruct (dispatch_uploads a rt e req w) as [more ->].
    exists (more ++ added)%list. now rewrite IH, app_assoc.
Qed.

End Invariants.

Lemma carol_registers_reachable :
  reachable (L := plain_library) postresql_app small_world carol_registers.
Proof.
  exact (reach_step postresql_app small_world small_world POST_register
           (seeded "one-" 1000) (credentials "carol" "pw3")
           (reach_start postresql_app small_world)).
Defined.

Lemma users_are_never_removed_witness :
  exists added, users carol_registers = (users small_world ++ added)%list.
Proof.
  exact (users_are_never_removed (L := plain_library) postresql_app
           small_world carol_registers carol_registers_reachable).
Defined.

Lemma small_world_unique_usernames : unique_usernames (users small_world).
Proof.
  unfold unique_usernames. simpl.
  repeat constructor; simpl; intuition discriminate.
Defined.

Lemma usernames_stay_unique_witness : unique_usernames (users carol_registers).
Proof.
  exact (usernames_stay_unique (L := plain_library) postresql_app
           small_world carol_registers small_world_unique_usernames
           carol_registers_reachable).
Defined.

Lemma alice_reports_flood_reachable :
  reachable (L := plain_library) postresql_app small_world alice_reports_flood.
Proof.
  exact (reach_step postresql_app small_world alice_adds_photo POST_incidents
           (seeded "three-" 3000000) flood_report
           (reach_step postresql_app small_world alice_logs_in
              (PUT_incident "i-1") (seeded "two-" 2000000)
              (bearer "one-a" [] (Some photo))
              (reach_step postresql_app small_world small_world POST_login
                 (seeded "one-" 1000000) (credentials "alice" "pw1")
                 (reach_start postresql_app small_world)))).
Defined.

Lemma bob_deletes_pothole_reachable :
  reachable (L := plain_library) postresql_app alice_adds_photo
    bob_deletes_pothole.
Proof.
  exact (reach_step postresql_app alice_adds_photo alice_reports_flood
           (DELETE_incident "i-1") (seeded "four-" 4000000)
           (bearer "t-bob" [] None)
           (reach_step postresql_app alice_adds_photo alice_adds_photo
              POST_incidents (seeded "three-" 3000000) flood_report
              (reach_start postresql_app alice_adds_photo))).
Defined.

(** Alice's login replaced her token: the table holds Bob's token and the
    new one, under different keys. *)
Lemma token_keys_stay_unique_witness :
  map ApiTokens.token (api_tokens alice_reports_flood) = ["t-bob"; "one-a"]
  /\ unique_tokens (api_tokens alice_reports_flood).
Proof.
  split; [reflexivity |].
  exact (token_keys_stay_unique (L := plain_library) postresql_app
           small_world alice_reports_flood small_world_unique_tokens
           alice_reports_flood_reachable).
Defined.

Lemma use_does_not_refresh_tokens_witness :
  api_tokens
    (snd (dispatch (L := plain_library) postgresql_app (DELETE_incident "i-1")
            (at_time 1000000) (bearer "t-bob" [] None) small_world))
  = api_tokens small_world.
Proof.
  assert (H1 : DELETE_incident "i-1" <> POST_login) by discriminate.
  assert (H2 : DELETE_incident "i-1" <> POST_logout) by discriminate.
  exact (use_does_not_refresh_tokens (L := plain_library) postgresql_app
           (DELETE_incident "i-1") (at_time 1000000) (bearer "t-bob" [] None)
           small_world H1 H2).
Defined.

(** The photo of the incident that Bob deletes is still in the directory
    afterwards, behind the photo of the flood. *)
Lemma uploads_are_never_removed_witness :
  uploads alice_adds_photo = [("uploads/two-a_Hole.PNG", "bytes")]
  /\ select_incident "i-1" (incidents bob_deletes_pothole) = None
  /\ List.length (uploads bob_deletes_pothole) = 2%nat
  /\ exists added,
       uploads bob_deletes_pothole
       = (added ++ [("uploads/two-a_Hole.PNG", "bytes")])%list.
Proof.
  split; [reflexivity |]. split; [reflexivity |]. split; [reflexivity |].
  exact (uploads_are_never_removed (L := plain_library) postresql_app
           alice_adds_photo bob_deletes_pothole bob_deletes_pothole_reachable).
Defined.

(** ** Creating, reading and deleting incidents *)

Section Incidents.
Context {L : Library}.



(** X15.  A deleted incident is gone for every route.  After a delete
    request made under a valid session with the database reachable, and
    whether or not the id existed, reading, updating or deleting that id
    again under any valid session answers 404 and changes nothing. *)
Theorem deleted_incident_is_gone (e e2 : env) (req req2 : request)
  (w w' : world) (uid uid2 id : string) (o : outcome) :
  valid_session e req w uid -> route_conn e = true ->
  token_required (delete_incident id) e req w = (o, w') ->
  valid_session e2 req2 w' uid2 -> route_conn e2 = true ->
  token_required (app_postresql.get_incident id) e2 req2 w'
  = (Responded incident_not_found, w')
  /\ token_required (update_incident id) e2 req2 w'
     = (Responded incident_not_found, w')
  /\ token_required (delete_incident id) e2 req2 w'
     = (Responded incident_not_found, w').
Proof.
  intros Hs Hc Hrun Hs2 Hc2.
  assert (Hgone : select_incident id (incidents w') = None).
  { rewrite (token_required_valid _ _ _ _ _ Hs) in Hrun.
    unfold call, delete_incident in Hrun. rewrite Hc in Hrun. simpl in Hrun.
    destruct (select_incident id (incidents w)) eqn:Hsel;
      inversion Hrun; subst; simpl;
      [apply select_incident_deleted | exact Hsel]. }
  rewrite !(token_required_valid _ _ _ _ _ Hs2). unfold call.
  unfold app_postresql.get_incident, update_incident, delete_incident.
  rewrite Hc2, Hgone. simpl. repeat split.
Qed.

End Incidents.


Lemma deleted_incident_is_gone_witness :
  token_required (app_postresql.get_incident "i-1") (at_time 1000000)
    (bearer "t-alice" [] None) (set_incidents small_world [])
  = (Responded incident_not_found, set_incidents small_world []).
Proof.
  assert (Hs : valid_session (at_time 1000000) (bearer "t-alice" [] None)
                 (set_incidents small_world []) "u-alice").
  { exists "t-alice", alice_token.
    repeat split; try reflexivity. discriminate. }
  exact (proj1 (deleted_incident_is_gone (L := plain_library)
                  (at_time 1000000) (at_time 1000000)
                  (bearer "t-bob" [] None) (bearer "t-alice" [] None)
                  small_world (set_incidents small_world [])
                  "u-bob" "u-alice" "i-1" (Responded incident_deleted)
                  bob_session eq_refl eq_refl Hs eq_refl)).
Defined.

(** ** Files that are not accepted *)

Section Files.
Context {L : Library}.

(** X16.  A file whose name is not empty and whose extension is not
    allowed makes a create request fail as a whole: both applications
    answer 400 "Invalid file type." and leave the world as it was, with no
    incident stored and no file written ([app_postgresql.py] whatever the
    form holds, [app_postresql.py] once the required fields are there). *)
Theorem invalid_file_type_is_rejected (e : env) (req : request) (w : world)
  (uid : string) (file : FileStorage) :
  valid_session e req w uid -> route_conn e = true ->
  files_image req = Some file ->
  filename file <> EmptyString -> allowed_file (filename file) = false ->
  token_required app_postgresql.create_incident e req w
  = (Responded invalid_file_type, w)
  /\ (all_required (form req) = true ->
      token_required app_postresql.create_incident e req w
      = (Responded invalid_file_type, w)).
Proof.
  intros Hs Hc Hfile Hname Hext.
  rewrite !(token_required_valid _ _ _ _ _ Hs). unfold call. split.
  - unfold app_postgresql.create_incident. rewrite Hc, Hfile. simpl.
    unfold accepted. rewrite Hext, andb_false_r.
    destruct (String.eqb_spec (filename file) EmptyString);
      [contradiction | reflexivity].
  - intros Hall. unfold app_postresql.create_incident. rewrite Hc. simpl.
    unfold all_required in Hall. simpl in Hall.
    rewrite andb_true_r, !andb_assoc in Hall. rewrite Hall, Hfile. simpl.
    unfold accepted. rewrite Hext, andb_false_r. reflexivity.
Qed.

(** X17.  A file part with an empty name, as a form sends when no file was
    chosen, is treated differently by the two applications:
    [app_postresql.py] answers 400 "Invalid file type." (once the required
    fields are there), [app_postgresql.py] answers as it does to the same
    request without the file part. *)
Theorem empty_file_name_divides_the_variants (e : env) (req : request)
  (w : world) (uid : string) (file : FileStorage) :
  valid_session e req w uid -> route_conn e = true ->
  files_image req = Some file -> filename file = EmptyString ->
  token_required app_postgresql.create_incident e req w
  = token_required app_postgresql.create_incident e (without_file req) w
  /\ (all_required (form req) = true ->
      token_required app_postresql.create_incident e req w
      = (Responded invalid_file_type, w)).
Proof.
  intros Hs Hc Hfile Hname.
  assert (Hs' : valid_session e (without_file req) w uid).
  { destruct Hs as (tok & row & Hh & Hrest). exists tok, row.
    split; [exact Hh | exact Hrest]. }
  rewrite (token_required_valid _ _ _ _ _ Hs).
  rewrite (token_required_valid _ _ _ _ _ Hs'). unfold call. split.
  - unfold app_postgresql.create_incident. rewrite Hc, Hfile. simpl.
    unfold accepted. rewrite Hname. reflexivity.
  - intros Hall. rewrite (token_required_valid _ _ _ _ _ Hs). unfold call.
    unfold app_postresql.create_incident. rewrite Hc. simpl.
    unfold all_required in Hall. simpl in Hall.
    rewrite andb_true_r, !andb_assoc in Hall. rewrite Hall, Hfile. simpl.
    unfold accepted. rewrite Hname. reflexivity.
Qed.

(** X18.  An update that brings nothing is refused: when the owner sends
    none of title, description, lat and long, and no file or a file that
    is not accepted, the route answers 400 "No fields provided for
    update." and leaves the world as it was. *)
Theorem update_without_fields_is_refused (e : env) (req : request)
  (w : world) (uid id : string) (old : Incidents.row) :
  valid_session e req w uid -> route_conn e = true ->
  select_incident id (incidents w) = Some old -> Incidents.user_id old = uid ->
  dict_get (form req) "title" = None ->
  dict_get (form req) "description" = None ->
  dict_get (form req) "lat" = None -> dict_get (form req) "long" = None ->
  (forall file, files_image req = Some file -> accepted file = false) ->
  token_required (update_incident id) e req w
  = (Responded no_fields_provided, w).
Proof.
  intros Hs Hc Hold Hown Ht Hd Hla Hlo Hfile.
  rewrite (token_required_valid _ _ _ _ _ Hs). unfold call, update_incident.
  rewrite Hc, Hold, Hown, String.eqb_refl, Ht, Hd, Hla, Hlo. simpl.
  destruct (files_image req) as [file |]; [| reflexivity].
  rewrite (Hfile file eq_refl). reflexivity.
Qed.


End Files.

Lemma alice_session_with (fm : list (string * string))
  (fi : option FileStorage) :
  valid_session (at_time 1000000) (bearer "t-alice" fm fi) small_world "u-alice".
Proof.
  exists "t-alice", alice_token. repeat split; try reflexivity. discriminate.
Defined.

Lemma invalid_file_type_is_rejected_witness :
  token_required (app_postgresql.create_incident (L := plain_library))
    (at_time 1000000) (bearer "t-alice" [("title", "Flood")] (Some notes))
    small_world
  = (Responded invalid_file_type, small_world).
Proof.
  assert (Hname : filename notes <> EmptyString) by discriminate.
  exact (proj1 (invalid_file_type_is_rejected (L := plain_library)
                  (at_time 1000000)
                  (bearer "t-alice" [("title", "Flood")] (Some notes))
                  small_world "u-alice" notes
                  (alice_session_with _ _) eq_refl eq_refl Hname eq_refl)).
Defined.

Lemma empty_file_name_divides_the_variants_witness :
  token_required (app_postgresql.create_incident (L := plain_library))
    (at_time 1000000) (bearer "t-alice" [("title", "Flood")] (Some unnamed))
    small_world
  = token_required (app_postgresql.create_incident (L := plain_library))
      (at_time 1000000)
      (without_file (bearer "t-alice" [("title", "Flood")] (Some unnamed)))
      small_world.
Proof.
  exact (proj1 (empty_file_name_divides_the_variants (L := plain_library)
                  (at_time 1000000)
                  (bearer "t-alice" [("title", "Flood")] (Some unnamed))
                  small_world "u-alice" unnamed
                  (alice_session_with _ _) eq_refl eq_refl eq_refl)).
Defined.

Lemma update_without_fields_is_refused_witness :
  token_required (update_incident (L := plain_library) "i-1")
    (at_time 1000000) (bearer "t-alice" [] (Some notes)) small_world
  = (Responded no_fields_provided, small_world).
Proof.
  assert (Hfile : forall file,
             files_image (bearer "t-alice" [] (Some notes)) = Some file ->
             accepted file = false).
  { intros file H. injection H as <-. reflexivity. }
  exact (update_without_fields_is_refused (L := plain_library)
           (at_time 1000000) (bearer "t-alice" [] (Some notes))
           small_world "u-alice" "i-1" pothole
           (alice_session_with _ _) eq_refl eq_refl eq_refl
           eq_refl eq_refl eq_refl eq_refl Hfile).
Defined.


(** ** An unreachable database *)

Section Unreachable.
Context {L : Library}.

(** X20.  When the database cannot be reached, no route writes anything:
    the world after the request is the world before it, and a route that
    answers at all answers 401 or 500. *)
Theorem unreachable_database_changes_nothing (a : app) (rt : route) (e : env)
  (req : request) (w : world) :
  guard_conn e = false -> route_conn e = false ->
  snd (dispatch a rt e req w) = w
  /\ forall r, fst (dispatch a rt e req w) = Responded r ->
               status_code r = 401 \/ status_code r = 500.
Proof.
  intros Hg Hr.
  assert (Hguard : forall f : view,
             snd (token_required f e req w) = w
             /\ forall r, fst (token_required f e req w) = Responded r ->
                          status_code r = 401 \/ status_code r = 500).
  { intros f. unfold token_required.
    destruct (header_token req) as [exn | tok]; simpl.
    - split; [reflexivity | intros r H; discriminate].
    - destruct (truthy tok); simpl.
      + rewrite Hg. simpl. split; [reflexivity |].
        intros r H. injection H as <-. now right.
      + split; [reflexivity |]. intros r H. injection H as <-. now left. }
  destruct rt; simpl; try apply Hguard.
  - unfold respond, register. rewrite Hr. simpl. split; [reflexivity |].
    intros r H. injection H as <-. now right.
  - unfold respond, login. rewrite Hr. simpl. split; [reflexivity |].
    intros r H. injection H as <-. now right.
  - destruct a; apply Hguard.
Qed.

End Unreachable.

Lemma unreachable_database_changes_nothing_witness :
  snd (dispatch (L := plain_library) postresql_app (DELETE_incident "i-1")
         (offline 1000000) (bearer "t-bob" [] None) small_world)
  = small_world.
Proof.
  exact (proj1 (unreachable_database_changes_nothing (L := plain_library)
                  postresql_app (DELETE_incident "i-1") (offline 1000000)
                  (bearer "t-bob" [] None) small_world eq_refl eq_refl)).
Defined.

(** ** The list of incidents *)

Lemma insert_desc_perm (r : Incidents.row) (l : list Incidents.row) :
  Permutation (insert_desc r l) (r :: l).
Proof.
  induction l as [| x t IH]; simpl; [apply Permutation_refl |].
  destruct (Incidents.created_at x <=? Incidents.created_at r);
    [apply Permutation_refl |].
  apply perm_trans with (x :: r :: t);
    [apply perm_skip, IH | apply perm_swap].
Qed.

Lemma insert_desc_Forall (P : Incidents.row -> Prop) (r : Incidents.row)
  (l : list Incidents.row) :
  P r -> Forall P l -> Forall P (insert_desc r l).
Proof.
  intros Hr Hl. induction Hl as [| x t Hx Ht IH]; simpl.
  - constructor; [exact Hr | constructor].
  - destruct (Incidents.created_at x <=? Incidents.created_at r);
      repeat constructor; assumption.
Qed.

Lemma insert_desc_sorted (r : Incidents.row) (l : list Incidents.row) :
  StronglySorted not_older l -> StronglySorted not_older (insert_desc r l).
Proof.
  intros Hl. induction Hl as [| x t Ht IH Hx]; simpl.
  - repeat constructor.
  - destruct (Z.leb_spec (Incidents.created_at x) (Incidents.created_at r))
      as [Hle | Hlt].
    + constructor; [constructor; assumption |].
      constructor; [exact Hle |].
      apply (Forall_impl _ (P := not_older x)); [| exact Hx].
      unfold not_older. intros y Hy. lia.
    + constructor; [exact IH |].
      apply insert_desc_Forall; [unfold not_older; lia | exact Hx].
Qed.

Lemma order_by_created_at_desc_perm (rows : list Incidents.row) :
  Permutation (order_by_created_at_desc rows) rows.
Proof.
  induction rows as [| r rows IH]; simpl; [constructor |].
  apply perm_trans with (r :: order_by_created_at_desc rows);
    [apply insert_desc_perm | apply perm_skip, IH].
Qed.

Lemma order_by_created_at_desc_sorted (rows : list Incidents.row) :
  StronglySorted not_older (order_by_created_at_desc rows).
Proof.
  induction rows as [| r rows IH]; simpl;
    [constructor | apply insert_desc_sorted, IH].
Qed.

(** X21.  With the database reachable, [get_all_incidents] answers 200
    with every incident of the table, each once, the most recent first;
    the list does not depend on who asks: no owner filter is applied. *)
Theorem listing_shows_every_incident (uid : string) (e : env) (w : world) :
  route_conn e = true ->
  exists rows,
    get_all_incidents uid e w = Listed rows 200
    /\ Permutation rows (incidents w)
    /\ StronglySorted not_older rows
    /\ forall other, get_all_incidents other e w = Listed rows 200.
Proof.
  intros Hc. exists (order_by_created_at_desc (incidents w)).
  unfold get_all_incidents. rewrite Hc. simpl.
  split; [reflexivity |].
  split; [apply order_by_created_at_desc_perm |].
  split; [apply order_by_created_at_desc_sorted | reflexivity].
Qed.

Lemma listing_shows_every_incident_witness :
  exists rows,
    get_all_incidents "u-bob" (at_time 1000000) small_world = Listed rows 200
    /\ Permutation rows (incidents small_world).
Proof.
  destruct (listing_shows_every_incident "u-bob" (at_time 1000000)
              small_world eq_refl)
    as (rows & Hrun & Hperm & _).
  exists rows. split; [exact Hrun | exact Hperm].
Defined.

(** ** Requests that fail *)

Lemma same_tables_refl (w : world) : same_tables w w.
Proof. repeat split. Qed.

Lemma insert_incident_Some (r : Incidents.row) (us : list Users.row)
  (rows rows' : list Incidents.row) :
  insert_incident r us rows = Some rows' ->
  rows' = (rows ++ [r])%list
  /\ select_incident (Incidents.incident_id r) rows = None
  /\ has_user_id (Incidents.user_id r) us = true.
Proof.
  unfold insert_incident.
  destruct (existsb _ rows) eqn:Hpk; simpl; [discriminate |].
  destruct (has_user_id _ us) eqn:Hfk; simpl; [| discriminate].
  destruct (negb (fits_columns _ _ _ _)); [discriminate |].
  intros H. inversion H. repeat split.
  apply existsb_false_find. exact Hpk.
Qed.

Lemma insert_incident_selected (r : Incidents.row) (us : list Users.row)
  (rows rows' : list Incidents.row) :
  insert_incident r us rows = Some rows' ->
  select_incident (Incidents.incident_id r) rows' = Some r.
Proof.
  intros H. apply insert_incident_Some in H as (-> & Hfresh & _).
  unfold select_incident in *. rewrite find_app_split, Hfresh. simpl.
  rewrite String.eqb_refl. reflexivity.
Qed.

Section Failures.
Context {L : Library}.

Lemma register_outcome (e : env) (req : request) (w : world) :
  status_code (fst (register e req w)) = 201
  \/ snd (register e req w) = w.
Proof. unfold register, insert_user. cases_of. Qed.

Lemma login_outcome (e : env) (req : request) (w : world) :
  status_code (fst (login e req w)) = 200 \/ snd (login e req w) = w.
Proof.
  destruct (login e req w) as [r w'] eqn:Hlogin.
  destruct (login_cases e req w r w' Hlogin)
    as [[-> _] | (uid & name & -> & _)]; simpl; auto.
Qed.

Lemma logout_outcome (uid : string) (e : env) (req : request) (w : world) :
  status_code (fst (logout uid e req w)) = 200
  \/ snd (logout uid e req w) = w.
Proof. unfold logout. cases_of. Qed.

Lemma create_insert_postresql_outcome (uid : string) (e : env)
  (req : request) (url : option string) (k : nat) (w : world) :
  status_code (fst (app_postresql.create_incident_insert uid e req url k w)) = 201
  \/ same_tables w (snd (app_postresql.create_incident_insert uid e req url k w)).
Proof.
  unfold app_postresql.create_incident_insert.
  destruct (insert_incident _ (users w) (incidents w)) as [rows |] eqn:Hins;
    [| right; apply same_tables_refl].
  apply insert_incident_selected in Hins. simpl in Hins. rewrite Hins.
  left. reflexivity.
Qed.

Lemma create_postresql_outcome (uid : string) (e : env) (req : request)
  (w : world) :
  status_code (fst (app_postresql.create_incident uid e req w)) = 201
  \/ same_tables w (snd (app_postresql.create_incident uid e req w)).
Proof.
  unfold app_postresql.create_incident.
  destruct (negb (route_conn e)); [right; apply same_tables_refl |].
  destruct (negb _); [right; apply same_tables_refl |].
  destruct (files_image req) as [file |];
    [| apply create_insert_postresql_outcome].
  destruct (accepted file); [| right; apply same_tables_refl].
  unfold save_upload.
  apply (create_insert_postresql_outcome uid e req _ 1%nat
           (set_uploads w _)).
Qed.

Lemma create_insert_postgresql_outcome (uid : string) (e : env)
  (req : request) (url : option string) (k : nat) (w : world) :
  status_code (fst (app_postgresql.create_incident_insert uid e req url k w)) = 201
  \/ same_tables w (snd (app_postgresql.create_incident_insert uid e req url k w)).
Proof.
  unfold app_postgresql.create_incident_insert.
  destruct (negb _); [right; apply same_tables_refl |].
  destruct (insert_incident _ (users w) (incidents w)) as [rows |];
    [left; reflexivity | right; apply same_tables_refl].
Qed.

Lemma create_postgresql_outcome (uid : string) (e : env) (req : request)
  (w : world) :
  status_code (fst (app_postgresql.create_incident uid e req w)) = 201
  \/ same_tables w (snd (app_postgresql.create_incident uid e req w)).
Proof.
  unfold app_postgresql.create_incident.
  destruct (negb (route_conn e)); [right; apply same_tables_refl |].
  destruct (files_image req) as [file |];
    [| apply create_insert_postgresql_outcome].
  destruct (accepted file).
  - unfold save_upload.
    apply (create_insert_postgresql_outcome uid e req _ 1%nat
             (set_uploads w _)).
  - destruct (negb _); [right; apply same_tables_refl |].
    apply create_insert_postgresql_outcome.
Qed.

Lemma update_outcome (id uid : string) (e : env) (req : request) (w : world) :
  status_code (fst (update_incident id uid e req w)) = 200
  \/ same_tables w (snd (update_incident id uid e req w)).
Proof.
  unfold update_incident.
  destruct (negb (route_conn e)); [right; apply same_tables_refl |].
  destruct (select_incident id (incidents w)) as [old |] eqn:Hold;
    [| right; apply same_tables_refl].
  destruct (negb _); [right; apply same_tables_refl |].
  destruct (files_image req) as [file |]; [destruct (accepted file) |];
    unfold save_upload; simpl;
    change (fun r0 : Incidents.row =>
              if String.eqb (Incidents.incident_id r0) id
              then apply_update ?t ?d ?la ?lo ?u r0 else r0)
      with (patch id (apply_update t d la lo u));
    (destruct (negb _); [right; repeat split |]);
    (destruct (negb _); [right; repeat split |]);
    rewrite select_incident_patched by reflexivity;
    rewrite Hold; left; reflexivity.
Qed.

Lemma delete_outcome (id uid : string) (e : env) (req : request) (w : world) :
  status_code (fst (delete_incident id uid e req w)) = 200
  \/ snd (delete_incident id uid e req w) = w.
Proof. unfold delete_incident. cases_of. Qed.

Lemma guarded_outcome (f : view) (e : env) (req : request) (w : world)
  (r : response) (code : Z) :
  (forall uid, status_code (fst (f uid e req w)) = code
               \/ same_tables w (snd (f uid e req w))) ->
  fst (token_required f e req w) = Responded r ->
  status_code r = code \/ same_tables w (snd (token_required f e req w)).
Proof.
  intros Hf.
  destruct (guard_cases f e req w)
    as [(uid & _ & ->) | (o & _ & Hall)].
  - unfold call. specialize (Hf uid). destruct (f uid e req w) as [r0 w0].
    simpl in *. intros H. injection H as <-. exact Hf.
  - rewrite Hall. intros _. right. apply same_tables_refl.
Qed.

(** X22.  A request that is not answered 200 or 201 writes no row: the
    users, the tokens and the incidents are as before.  (The upload
    directory is not covered: a create request can fail after its file
    was saved.) *)
Theorem failed_requests_write_no_rows (a : app) (rt : route) (e : env)
  (req : request) (w : world) (r : response) :
  fst (dispatch a rt e req w) = Responded r ->
  status_code r <> 200 -> status_code r <> 201 ->
  same_tables w (snd (dispatch a rt e req w)).
Proof.
  intros Hrun H200 H201.
  assert (Hview : forall (f : view) code,
             (code = 200 \/ code = 201) ->
             (forall uid, status_code (fst (f uid e req w)) = code
                          \/ same_tables w (snd (f uid e req w))) ->
             fst (token_required f e req w) = Responded r ->
             same_tables w (snd (token_required f e req w))).
  { intros f code Hcode Hf Hr.
    destruct (guarded_outcome f e req w r code Hf Hr) as [Hst | Hsame];
      [| exact Hsame].
    destruct Hcode; subst code; contradiction. }
  assert (Hweak : forall (f : view) code,
             (forall uid, status_code (fst (f uid e req w)) = code
                          \/ snd (f uid e req w) = w) ->
             forall uid, status_code (fst (f uid e req w)) = code
                         \/ same_tables w (snd (f uid e req w))).
  { intros f code Hf uid. destruct (Hf uid) as [H | ->];
      [now left | right; apply same_tables_refl]. }
  destruct rt; simpl in *.
  - unfold respond in *. pose proof (register_outcome e req w) as H.
    destruct (register e req w) as [r0 w0]. simpl in *.
    injection Hrun as <-. destruct H as [H | ->];
      [contradiction | apply same_tables_refl].
  - unfold respond in *. pose proof (login_outcome e req w) as H.
    destruct (login e req w) as [r0 w0]. simpl in *.
    injection Hrun as <-. destruct H as [H | ->];
      [contradiction | apply same_tables_refl].
  - apply (Hview logout 200); [now left | | exact Hrun].
    apply Hweak. intros uid. apply logout_outcome.
  - destruct a.
    + apply (Hview app_postresql.create_incident 201);
        [now right | intros uid; apply create_postresql_outcome | exact Hrun].
    + apply (Hview app_postgresql.create_incident 201);
        [now right | intros uid; apply create_postgresql_outcome | exact Hrun].
  - apply (Hview (update_incident incident_id) 200);
      [now left | intros uid; apply update_outcome | exact Hrun].
  - apply (Hview (delete_incident incident_id) 200); [now left | | exact Hrun].
    apply Hweak. intros uid. apply delete_outcome.
Qed.

End Failures.

Lemma failed_requests_write_no_rows_witness :
  same_tables small_world
    (snd (dispatch (L := plain_library) postgresql_app POST_incidents
            (at_time 1000000)
            (bearer "t-alice" [("title", "Flood")] (Some photo)) small_world)).
Proof.
  assert (H200 : 400 <> 200) by discriminate.
  assert (H201 : 400 <> 201) by discriminate.
  exact (failed_requests_write_no_rows (L := plain_library) postgresql_app
           POST_incidents (at_time 1000000)
           (bearer "t-alice" [("title", "Flood")] (Some photo)) small_world
           (jsonify "Missing required fields"
              (required_received required_fields [("title", "Flood")]) 400)
           eq_refl H200 H201).
Defined.

(** ** Keys and references over time *)

Lemma NoDup_map_filter {A B : Type} (f : A -> B) (q : A -> bool) (l : list A) :
  NoDup (map f l) -> NoDup (map f (filter q l)).
Proof.
  induction l as [| a l IH]; simpl; [auto |].
  intros Hnd. inversion Hnd as [| x l' Hnotin Hnd']; subst.
  destruct (q a); simpl; [| now apply IH].
  constructor; [| now apply IH].
  intros Hin. apply Hnotin. apply in_map_iff in Hin as (r & Hr & Hin).
  apply filter_In in Hin as [Hin _]. rewrite <- Hr. now apply in_map.
Qed.

Lemma select_incident_None_not_in (id : string) (rows : list Incidents.row) :
  select_incident id rows = None -> ~ In id (map Incidents.incident_id rows).
Proof.
  unfold select_incident. induction rows as [| a rows IH]; simpl; [tauto |].
  destruct (String.eqb_spec (Incidents.incident_id a) id); [discriminate |].
  intros H [Heq | Hin]; [contradiction | exact (IH H Hin)].
Qed.

Lemma map_id_patch (id : string) (g : Incidents.row -> Incidents.row)
  (rows : list Incidents.row) :
  (forall r, Incidents.incident_id (g r) = Incidents.incident_id r) ->
  map Incidents.incident_id (map (patch id g) rows)
  = map Incidents.incident_id rows.
Proof.
  intros Hg. rewrite map_map. apply map_ext. intros r. unfold patch.
  destruct (String.eqb (Incidents.incident_id r) id); [apply Hg | reflexivity].
Qed.

Lemma has_user_id_app (uid : string) (rows more : list Users.row) :
  has_user_id uid rows = true -> has_user_id uid (rows ++ more) = true.
Proof.
  unfold has_user_id. intros H. rewrite existsb_app, H. reflexivity.
Qed.

Lemma patched_step (w w' : world) (id : string)
  (t d la lo u : option string) :
  incidents w' = map (patch id (apply_update t d la lo u)) (incidents w) ->
  incidents_step w w'.
Proof.
  intros H. right. right. left. exists id, (apply_update t d la lo u).
  split; [intros x; split; reflexivity | exact H].
Qed.

Section Keys.
Context {L : Library}.

Lemma register_incidents (e : env) (req : request) (w : world) :
  incidents (snd (register e req w)) = incidents w.
Proof. unfold register, insert_user. cases_of. Qed.

Lemma create_insert_postresql_step (uid : string) (e : env) (req : request)
  (url : option string) (k : nat) (w : world) :
  incidents_step w (snd (app_postresql.create_incident_insert uid e req url k w)).
Proof.
  unfold app_postresql.create_incident_insert.
  destruct (insert_incident _ (users w) (incidents w)) as [rows |] eqn:Hins;
    [| now left].
  pose proof (insert_incident_selected _ _ _ _ Hins) as Hsel.
  simpl in Hsel. rewrite Hsel. simpl.
  apply insert_incident_Some in Hins as (-> & Hfresh & Hfk).
  right. left. eexists. split; [reflexivity | split; [exact Hfresh | exact Hfk]].
Qed.

Lemma create_insert_postgresql_step (uid : string) (e : env) (req : request)
  (url : option string) (k : nat) (w : world) :
  incidents_step w (snd (app_postgresql.create_incident_insert uid e req url k w)).
Proof.
  unfold app_postgresql.create_incident_insert.
  destruct (negb _); [now left |].
  destruct (insert_incident _ (users w) (incidents w)) as [rows |] eqn:Hins;
    [| now left].
  apply insert_incident_Some in Hins as (-> & Hfresh & Hfk).
  right. left. eexists. split; [reflexivity | split; [exact Hfresh | exact Hfk]].
Qed.

Lemma dispatch_incidents_step (a : app) (rt : route) (e : env) (req : request)
  (w : world) :
  incidents_step w (snd (dispatch a rt e req w)).
Proof.
  apply dispatch_related.
  - now left.
  - left. apply register_incidents.
  - left. apply login_frame.
  - intros uid. left. apply logout_frame.
  - intros uid. unfold app_postresql.create_incident.
    destruct (negb (route_conn e)); [now left |].
    destruct (negb _); [now left |].
    destruct (files_image req) as [file |];
      [| apply create_insert_postresql_step].
    destruct (accepted file); [| now left].
    unfold save_upload.
    apply (create_insert_postresql_step uid e req _ 1%nat (set_uploads w _)).
  - intros uid. unfold app_postgresql.create_incident.
    destruct (negb (route_conn e)); [now left |].
    destruct (files_image req) as [file |];
      [| apply create_insert_postgresql_step].
    destruct (accepted file).
    + unfold save_upload.
      apply (create_insert_postgresql_step uid e req _ 1%nat (set_uploads w _)).
    + destruct (negb _); [now left | apply create_insert_postgresql_step].
  - intros id uid. unfold update_incident.
    destruct (negb (route_conn e)); [now left |].
    destruct (select_incident id (incidents w)); [| now left].
    destruct (negb _); [now left |].
    destruct (files_image req) as [file |]; [destruct (accepted file) |];
      unfold save_upload; simpl;
      (destruct (negb _); [now left |]);
      (destruct (negb _); [now left |]);
      change (fun r0 : Incidents.row =>
                if String.eqb (Incidents.incident_id r0) id
                then apply_update ?t ?d ?la ?lo ?u r0 else r0)
        with (patch id (apply_update t d la lo u));
      eapply patched_step; destruct (select_incident id _); reflexivity.
  - intros id uid. unfold delete_incident.
    destruct (negb (route_conn e)); [now left |].
    destruct (select_incident id (incidents w)); [| now left].
    right. right. right. exists id. reflexivity.
Qed.

(** X23.  Incident ids stay unique: a create inserts under an id that no
    row carries, an update keeps the ids and a delete only removes rows,
    so an incident table without two rows of the same id never gets two. *)
Theorem incident_ids_stay_unique (a : app) (w0 w : world) :
  unique_incident_ids (incidents w0) -> reachable a w0 w ->
  unique_incident_ids (incidents w).
Proof.
  intros Hinit Hreach. induction Hreach as [| w rt e req _ IH]; [exact Hinit |].
  unfold unique_incident_ids in *.
  destruct (dispatch_incidents_step a rt e req w)
    as [-> | [(r & -> & Hfresh & _) | [(id & g & Hg & ->) | (id & ->)]]].
  - exact IH.
  - rewrite map_app. simpl.
    apply NoDup_snoc; [exact IH | now apply select_incident_None_not_in].
  - rewrite map_id_patch; [exact IH | intros r; apply Hg].
  - now apply NoDup_map_filter.
Qed.

Lemma login_success_user (e : env) (req : request) (w w' : world)
  (t uid name : string) :
  login e req w = (login_successful t uid name, w') ->
  has_user_id uid (users w) = true.
Proof.
  unfold login.
  destruct (negb (route_conn e)); [discriminate |].
  destruct (json req) as [data |]; [| discriminate].
  destruct (_ || _); [discriminate |].
  destruct (json_get data "username") as [[| b | d x | s | items | members] |];
    try discriminate.
  destruct (select_user s (users w)) as [user_data |]; [| discriminate].
  destruct (check_password_hash _ _) as [[|] |]; try discriminate.
  unfold insert_token. simpl.
  destruct (existsb _ _); simpl; [discriminate |].
  destruct (existsb _ _); simpl; [discriminate |].
  destruct (has_user_id (Users.user_id user_data) (users w)) eqn:Hfk;
    simpl; [| discriminate].
  intros H. injection H as _ <- _ _. exact Hfk.
Qed.

Lemma dispatch_references (a : app) (rt : route) (e : env) (req : request)
  (w : world) :
  references_users w -> references_users (snd (dispatch a rt e req w)).
Proof.
  intros [Htok Hinc].
  pose proof (dispatch_users_step a rt e req w) as Hu.
  pose proof (dispatch_incidents_step a rt e req w) as Hi.
  assert (Hgrow : forall uid, has_user_id uid (users w) = true ->
                    has_user_id uid (users (snd (dispatch a rt e req w))) = true).
  { intros uid H. destruct Hu as [-> | (r & -> & _)];
      [exact H | now apply has_user_id_app]. }
  split.
  - intros t Hin. apply Hgrow. revert t Hin.
    apply (dispatch_related
             (fun w w' =>
                (forall t, In t (api_tokens w) ->
                           has_user_id (ApiTokens.user_id t) (users w) = true) ->
                forall t, In t (api_tokens w') ->
                          has_user_id (ApiTokens.user_id t) (users w) = true));
      try exact Htok.
    + auto.
    + rewrite register_api_tokens. auto.
    + destruct (login e req w) as [r w'] eqn:Hlogin.
      destruct (login_cases e req w r w' Hlogin)
        as [[-> _] | (uid & name & -> & _ & ->)]; simpl; [auto |].
      intros Hold t Hin. unfold reissued in Hin.
      apply in_app_iff in Hin as [Hin | [<- | []]].
      * apply filter_In in Hin as [Hin _]. now apply Hold.
      * simpl. exact (login_success_user _ _ _ _ _ _ _ Hlogin).
    + intros uid Hold t Hin. apply Hold.
      unfold logout in Hin.
      destruct (negb (route_conn e)); [exact Hin |].
      destruct (header_token req) as [exn | [tok |]]; try exact Hin.
      simpl in Hin. now apply filter_In in Hin as [Hin _].
    + intros uid. rewrite create_incident_postresql_api_tokens. auto.
    + intros uid. rewrite create_incident_postgresql_api_tokens. auto.
    + intros id uid. rewrite update_incident_api_tokens. auto.
    + intros id uid. rewrite delete_incident_api_tokens. auto.
  - intros i Hin. apply Hgrow.
    destruct Hi as [Hi | [(r & Hi & _ & Hfk) | [(id & g & Hg & Hi) | (id & Hi)]]];
      rewrite Hi in Hin.
    + now apply Hinc.
    + apply in_app_iff in Hin as [Hin | [<- | []]];
        [now apply Hinc | exact Hfk].
    + apply in_map_iff in Hin as (r & <- & Hin). unfold patch.
      destruct (String.eqb (Incidents.incident_id r) id);
        [rewrite (proj2 (Hg r)) |]; now apply Hinc.
    + apply filter_In in Hin as [Hin _]. now apply Hinc.
Qed.

(** X24.  References stay valid: when every token and every incident
    belongs to a user of the user table, they still do after any sequence
    of requests, since users are never removed, an update keeps the owner
    and a row is inserted for an existing user only. *)
Theorem references_stay_valid (a : app) (w0 w : world) :
  references_users w0 -> reachable a w0 w -> references_users w.
Proof.
  intros Hinit Hreach. induction Hreach as [| w rt e req _ IH];
    [exact Hinit | now apply dispatch_references].
Qed.

End Keys.

Lemma small_world_unique_incident_ids :
  unique_incident_ids (incidents small_world).
Proof.
  unfold unique_incident_ids. simpl.
  repeat constructor; simpl; intuition discriminate.
Defined.

Lemma small_world_references_users : references_users small_world.
Proof.
  split; simpl; intros x H;
    repeat (destruct H as [<- | H]; [reflexivity |]); destruct H.
Defined.

(** After Alice's update and her report the table holds two incidents,
    under different ids. *)
Lemma incident_ids_stay_unique_witness :
  map Incidents.incident_id (incidents alice_reports_flood) = ["i-1"; "three-b"]
  /\ unique_incident_ids (incidents alice_reports_flood).
Proof.
  split; [reflexivity |].
  exact (incident_ids_stay_unique (L := plain_library) postresql_app
           small_world alice_reports_flood small_world_unique_incident_ids
           alice_reports_flood_reachable).
Defined.

Lemma references_stay_valid_witness : references_users carol_registers.
Proof.
  exact (references_stay_valid (L := plain_library) postresql_app
           small_world carol_registers small_world_references_users
           carol_registers_reachable).
Defined.

(** ** Creating an incident with its image *)

Section CreateWithImage.
Context {L : Library}.


End CreateWithImage.

